(** * secure-s3-upload: the pre-signed upload URL handler

    A shallow embedding of [src/lambda/handler.py] and the proofs of the
    properties its specification states about it.

    Definitions:
    - [PyStr]   Python [str] values and the string methods the handler calls;
    - [Regex]   a small regular-expression matcher, used to state key shapes;
    - [Json]    the decoded values, the decoder behind [json.loads] and the
                encoder behind [json.dumps];
    - [Uuid]    [uuid.uuid4] and its string form;
    - [Handler] exceptions, the world outside, the module-level
                configuration and [lambda_handler];
    - the vocabulary of the properties and a concrete deployment.

    Facts: strings, the decoder (it reads forward and always ends, and
    the limits of the interpreter can only stop it), the encoder
    (decoding gives back what was encoded), regular expressions, the
    handler case by case, and then the properties of the specification,
    each followed further down by a concrete instance.
    After them come further properties read off the code: the responses
    and effects of every invocation, the keys, the random suffix, the
    module body and the bodies as JSON.

    How Python is modelled:
    - a [str] is a list of code points, so that slicing, [startswith],
      [split] and the escapes of JSON mean what they mean in Python;
    - the values that JSON decoding produces, and the event itself, are
      values of the type [json]; a method that a value does not have
      raises [AttributeError];
    - a statement that can raise returns an [outcome]; the handler runs in
      a monad that reads the world (clock, random bytes, iteration order
      of a set, the storage client) and appends to a log of effects (the
      signing calls and the lines printed);
    - the text of a request can reach two limits of the interpreter, and
      both are modelled: the recursion limit, which stops [json.loads] at
      a text nested too deep, and the limit on the digits of an [int];
      either way line 23 raises and the answer is the 500 response.  The
      calls that the handler makes for itself are taken to run, and
      memory has no limit;
    - [print] records the exception it is given rather than the text of
      its message. *)

From Stdlib Require Import List NArith ZArith Lia Bool String Ascii.
From Stdlib Require Import Permutation.
From Stdlib Require Decimal Hexadecimal DecimalPos DecimalZ.
From Stdlib Require HexadecimalPos HexadecimalN.
Import ListNotations.

Set Implicit Arguments.
Set Warnings "-register-all".

(* ------------------------------------------------------------------ *)
(** ** Python strings *)

Module PyStr.

(** A Python [str] is a sequence of Unicode code points. *)
Definition char := N.
Definition str := list char.

(** [py "image/"] is the [str] written with that literal in the source
    (the literals of the handler are all ASCII). *)
Definition py (s : string) : str :=
  map N_of_ascii (list_ascii_of_string s).

(** The double quote, which the handler's messages and JSON both use. *)
Definition dquote : char := 34%N.

Fixpoint str_eqb (a b : str) : bool :=
  match a, b with
  | [], [] => true
  | x :: a', y :: b' => N.eqb x y && str_eqb a' b'
  | _, _ => false
  end.

(** [s.startswith(prefix)] *)
Fixpoint startswith (s prefix : str) {struct prefix} : bool :=
  match prefix, s with
  | [], _ => true
  | p :: prefix', c :: s' => N.eqb c p && startswith s' prefix'
  | _ :: _, [] => false
  end.

(** [sub in s] for two strings *)
Fixpoint contains (s sub : str) : bool :=
  startswith s sub ||
  match s with
  | [] => false
  | _ :: s' => contains s' sub
  end.

(** [x in xs] for a string and a collection of strings *)
Definition str_in (x : str) (xs : list str) : bool :=
  existsb (str_eqb x) xs.

(** [s.split(sep)] for a one-character separator: the pieces between the
    occurrences of [sep]; the result is never empty. *)
Fixpoint split (s : str) (sep : char) : list str :=
  match s with
  | [] => [[]]
  | c :: s' =>
      if N.eqb c sep then [] :: split s' sep
      else match split s' sep with
           | w :: ws => (c :: w) :: ws
           | [] => [[c]]
           end
  end.

(** [sep.join(xs)] *)
Fixpoint join (sep : str) (xs : list str) : str :=
  match xs with
  | [] => []
  | [x] => x
  | x :: xs' => x ++ sep ++ join sep xs'
  end.

(** [s[:n]] *)
Definition take (n : nat) (s : str) : str := firstn n s.

Definition digit_char (d : N) : char := (48 + d)%N.

Fixpoint str_of_uint (d : Decimal.uint) : str :=
  match d with
  | Decimal.Nil => []
  | Decimal.D0 d => digit_char 0 :: str_of_uint d
  | Decimal.D1 d => digit_char 1 :: str_of_uint d
  | Decimal.D2 d => digit_char 2 :: str_of_uint d
  | Decimal.D3 d => digit_char 3 :: str_of_uint d
  | Decimal.D4 d => digit_char 4 :: str_of_uint d
  | Decimal.D5 d => digit_char 5 :: str_of_uint d
  | Decimal.D6 d => digit_char 6 :: str_of_uint d
  | Decimal.D7 d => digit_char 7 :: str_of_uint d
  | Decimal.D8 d => digit_char 8 :: str_of_uint d
  | Decimal.D9 d => digit_char 9 :: str_of_uint d
  end.

(** [str(n)] for an [int]: decimal, a minus sign for negatives. *)
Definition str_of_int (n : Z) : str :=
  match Z.to_int n with
  | Decimal.Pos d => str_of_uint d
  | Decimal.Neg d => 45%N :: str_of_uint d
  end.

(** The lowercase hexadecimal digit of a value below 16. *)
Definition hex_char (d : N) : char :=
  if (d <? 10)%N then (48 + d)%N else (87 + d)%N.

Fixpoint str_of_hex_uint (d : Hexadecimal.uint) : str :=
  match d with
  | Hexadecimal.Nil => []
  | Hexadecimal.D0 d => hex_char 0 :: str_of_hex_uint d
  | Hexadecimal.D1 d => hex_char 1 :: str_of_hex_uint d
  | Hexadecimal.D2 d => hex_char 2 :: str_of_hex_uint d
  | Hexadecimal.D3 d => hex_char 3 :: str_of_hex_uint d
  | Hexadecimal.D4 d => hex_char 4 :: str_of_hex_uint d
  | Hexadecimal.D5 d => hex_char 5 :: str_of_hex_uint d
  | Hexadecimal.D6 d => hex_char 6 :: str_of_hex_uint d
  | Hexadecimal.D7 d => hex_char 7 :: str_of_hex_uint d
  | Hexadecimal.D8 d => hex_char 8 :: str_of_hex_uint d
  | Hexadecimal.D9 d => hex_char 9 :: str_of_hex_uint d
  | Hexadecimal.Da d => hex_char 10 :: str_of_hex_uint d
  | Hexadecimal.Db d => hex_char 11 :: str_of_hex_uint d
  | Hexadecimal.Dc d => hex_char 12 :: str_of_hex_uint d
  | Hexadecimal.Dd d => hex_char 13 :: str_of_hex_uint d
  | Hexadecimal.De d => hex_char 14 :: str_of_hex_uint d
  | Hexadecimal.Df d => hex_char 15 :: str_of_hex_uint d
  end.

(** ['%0<width>x' % n]: lowercase hexadecimal, padded with zeros on the
    left up to [width] characters. *)
Definition format_0x (width : nat) (n : N) : str :=
  let h := str_of_hex_uint (N.to_hex_uint n) in
  repeat 48%N (width - List.length h) ++ h.

Definition is_digit (c : char) : bool := (48 <=? c)%N && (c <=? 57)%N.
Definition is_lower_hex (c : char) : bool :=
  is_digit c || ((97 <=? c)%N && (c <=? 102)%N).

End PyStr.
Import PyStr.

(* ------------------------------------------------------------------ *)
(** ** Regular expressions

    Matching by derivatives; used to state the shape of object keys. *)

Module Regex.

Inductive regex : Type :=
| Void
| Eps
| Class (p : char -> bool)
| Cat (r1 r2 : regex)
| Alt (r1 r2 : regex)
| Star (r : regex).

Fixpoint nullable (r : regex) : bool :=
  match r with
  | Void => false
  | Eps => true
  | Class _ => false
  | Cat r1 r2 => nullable r1 && nullable r2
  | Alt r1 r2 => nullable r1 || nullable r2
  | Star _ => true
  end.

Fixpoint deriv (c : char) (r : regex) : regex :=
  match r with
  | Void => Void
  | Eps => Void
  | Class p => if p c then Eps else Void
  | Cat r1 r2 =>
      if nullable r1 then Alt (Cat (deriv c r1) r2) (deriv c r2)
      else Cat (deriv c r1) r2
  | Alt r1 r2 => Alt (deriv c r1) (deriv c r2)
  | Star r1 => Cat (deriv c r1) (Star r1)
  end.

(** [re.fullmatch(r, s) is not None] *)
Fixpoint fullmatch (r : regex) (s : str) : bool :=
  match s with
  | [] => nullable r
  | c :: s' => fullmatch (deriv c r) s'
  end.

(** A literal string, [r+] and [r{n}]. *)
Definition Lit (s : str) : regex :=
  fold_right (fun c r => Cat (Class (N.eqb c)) r) Eps s.
Definition Plus (r : regex) : regex := Cat r (Star r).
Fixpoint Rep (n : nat) (r : regex) : regex :=
  match n with
  | O => Eps
  | S n' => Cat r (Rep n' r)
  end.

(** [\d] restricted to the ASCII digits and [[A-Za-z0-9-]]. *)
Definition digit : regex := Class is_digit.
Definition is_alnum_dash (c : char) : bool :=
  ((65 <=? c)%N && (c <=? 90)%N) || ((97 <=? c)%N && (c <=? 122)%N)
  || is_digit c || N.eqb c 45%N.

(** [uploads/\d+-[A-Za-z0-9-]{6}\.<ext>] *)
Definition key_pattern (ext : str) : regex :=
  Cat (Lit (py "uploads/"))
   (Cat (Plus digit)
     (Cat (Lit (py "-"))
       (Cat (Rep 6 (Class is_alnum_dash))
         (Cat (Lit (py ".")) (Lit ext))))).

End Regex.

(* ------------------------------------------------------------------ *)
(** ** JSON values, [json.loads] and [json.dumps] *)

Module Json.

(** The Python values that JSON decoding produces: [None], [bool], [int],
    [float], [str], [list] and [dict] with [str] keys.  A [float] is kept
    as the text it was read from; the handler never computes with one.  A
    [dict] keeps its keys in insertion order, each key once. *)
Inductive json : Type :=
| JNull
| JBool (b : bool)
| JInt (n : Z)
| JFloat (lexeme : str)
| JStr (s : str)
| JArr (items : list json)
| JObj (members : list (str * json)).

(** [d.get(k)] on the entries of a [dict] *)
Fixpoint dict_get (V : Type) (d : list (str * V)) (k : str) : option V :=
  match d with
  | [] => None
  | (k', v) :: d' => if str_eqb k' k then Some v else dict_get d' k
  end.

(** [d[k] = v]: an existing key keeps its place and takes the new value. *)
Fixpoint dict_set (V : Type) (d : list (str * V)) (k : str) (v : V)
  : list (str * V) :=
  match d with
  | [] => [(k, v)]
  | (k', v') :: d' =>
      if str_eqb k' k then (k', v) :: d' else (k', v') :: dict_set d' k v
  end.

(** *** Decoding *)

(** [is_char "{" c]: the code point [c] is that ASCII character. *)
Definition is_char (a : ascii) (c : char) : bool := N.eqb c (N_of_ascii a).

Definition is_quote (c : char) : bool := N.eqb c dquote.

Definition is_ws (c : char) : bool :=
  N.eqb c 32 || N.eqb c 9 || N.eqb c 10 || N.eqb c 13.

Fixpoint skip_ws (s : str) : str :=
  match s with
  | c :: s' => if is_ws c then skip_ws s' else s
  | [] => []
  end.

Definition hex_value (c : char) : option N :=
  if is_digit c then Some (c - 48)%N
  else if (97 <=? c)%N && (c <=? 102)%N then Some (c - 87)%N
  else if (65 <=? c)%N && (c <=? 70)%N then Some (c - 55)%N
  else None.

Definition hex4 (a b c d : char) : option N :=
  match hex_value a, hex_value b, hex_value c, hex_value d with
  | Some x, Some y, Some z, Some w =>
      Some (((x * 16 + y) * 16 + z) * 16 + w)%N
  | _, _, _, _ => None
  end.

Definition is_high_surrogate (u : N) : bool :=
  (0xD800 <=? u)%N && (u <=? 0xDBFF)%N.
Definition is_low_surrogate (u : N) : bool :=
  (0xDC00 <=? u)%N && (u <=? 0xDFFF)%N.
Definition join_surrogates (hi lo : N) : N :=
  (0x10000 + (N.shiftl (hi - 0xD800) 10 + (lo - 0xDC00)))%N.

(** The one-character escapes after a backslash. *)
Definition simple_escape (c : char) : option char :=
  if is_quote c then Some dquote
  else if is_char "\" c then Some 92%N
  else if is_char "/" c then Some 47%N
  else if is_char "b" c then Some 8%N
  else if is_char "f" c then Some 12%N
  else if is_char "n" c then Some 10%N
  else if is_char "r" c then Some 13%N
  else if is_char "t" c then Some 9%N
  else None.

(** [scanstring] in strict mode, called just after the opening quote:
    the decoded string (accumulated in reverse in [acc]) and the input
    after the closing quote; [None] for an unterminated string, a raw
    control character or a bad escape.  A [\u] escape of a high surrogate
    followed by a [\u] escape of a low surrogate is one character. *)
Fixpoint scanstring (s : str) (acc : str) : option (str * str) :=
  match s with
  | [] => None
  | c :: r =>
      if is_quote c then Some (rev acc, r)
      else if is_char "\" c then
        match r with
        | [] => None
        | e :: r1 =>
            if is_char "u" e then
              match r1 with
              | h1 :: h2 :: h3 :: h4 :: r2 =>
                  match hex4 h1 h2 h3 h4 with
                  | None => None
                  | Some u =>
                      if is_high_surrogate u then
                        match r2 with
                        | b :: x :: g1 :: g2 :: g3 :: g4 :: r3 =>
                            if is_char "\" b && is_char "u" x then
                              match hex4 g1 g2 g3 g4 with
                              | None => None
                              | Some u2 =>
                                  if is_low_surrogate u2
                                  then scanstring r3
                                         (join_surrogates u u2 :: acc)
                                  else scanstring r2 (u :: acc)
                              end
                            else scanstring r2 (u :: acc)
                        | _ => scanstring r2 (u :: acc)
                        end
                      else scanstring r2 (u :: acc)
                  end
              | _ => None
              end
            else
              match simple_escape e with
              | Some c' => scanstring r1 (c' :: acc)
              | None => None
              end
        end
      else if (c <? 32)%N then None
      else scanstring r (c :: acc)
  end.

Fixpoint span_digits (s : str) : str * str :=
  match s with
  | c :: s' =>
      if is_digit c then let (ds, rest) := span_digits s' in (c :: ds, rest)
      else ([], s)
  | [] => ([], [])
  end.

Definition int_of_digits (ds : str) : Z :=
  fold_left (fun acc c => (10 * acc + (Z.of_N c - 48))%Z) ds 0%Z.

(** The three parts of the number grammar, each splitting the input into
    the text it takes and the rest.  The integer part is a single 0 or a
    digit from 1 to 9 followed by any digits, after an optional minus
    sign; it must be there. *)
Definition integer_part (s : str) : option (str * str) :=
  let (sign, s1) :=
    match s with
    | c :: r => if is_char "-" c then ([c], r) else ([], s)
    | [] => ([], s)
    end in
  match s1 with
  | c :: r =>
      if is_char "0" c then Some (sign ++ [c], r)
      else if is_digit c then
        let (ds, rest) := span_digits r in Some (sign ++ c :: ds, rest)
      else None
  | [] => None
  end.

(** The fraction: a dot and at least one digit, or nothing. *)
Definition fraction_part (s : str) : str * str :=
  match s with
  | c :: r =>
      if is_char "." c then
        match span_digits r with
        | ([], _) => ([], s)
        | (ds, rest) => (c :: ds, rest)
        end
      else ([], s)
  | [] => ([], s)
  end.

(** The exponent: e or E, an optional sign and at least one digit, or
    nothing. *)
Definition exponent_part (s : str) : str * str :=
  match s with
  | e :: r =>
      if is_char "e" e || is_char "E" e then
        let (esign, r') :=
          match r with
          | x :: r'' =>
              if is_char "-" x || is_char "+" x then ([x], r'') else ([], r)
          | [] => ([], r)
          end in
        match span_digits r' with
        | ([], _) => ([], s)
        | (ds, rest) => (e :: esign ++ ds, rest)
        end
      else ([], s)
  | [] => ([], s)
  end.

(** [int(text)] for the text of an integer part *)
Definition int_of_integer_part (text : str) : Z :=
  match text with
  | c :: ds => if is_char "-" c then (- int_of_digits ds)%Z
               else int_of_digits text
  | [] => 0%Z
  end.

(** The result of scanning one value from the front of the input: the
    value and the rest of the input, or a refusal of the text, or one of
    the two limits of the interpreter that a text can reach: more calls
    of the scanner, one inside the other, than the recursion limit leaves
    room for ([RecursionError]), and an integer of more digits than [int]
    converts ([ValueError], with the text of the integer). *)
Inductive scan (A : Type) : Type :=
| Scanned (a : A) (rest : str)
| Malformed
| TooDeep
| TooManyDigits (text : str)
| OutOfFuel.
Arguments Malformed {A}.
Arguments TooDeep {A}.
Arguments TooManyDigits {A}.
Arguments OutOfFuel {A}.

(** [int(text)] is refused for the text of an integer part with more
    digits than [max_digits], the value of [sys.get_int_max_str_digits()]:
    0 when the limit is off, and never checked up to 640 digits.  The sign
    does not count. *)
Definition exceeds_max_str_digits (max_digits : nat) (text : str) : bool :=
  let digits :=
    List.length (match text with
                 | c :: ds => if is_char "-" c then ds else text
                 | [] => []
                 end) in
  (640 <? digits) && (0 <? max_digits) && (max_digits <? digits).

(** A number at the start of [s]: an [int] when there is neither
    fraction nor exponent, else a [float]; only an [int] has a limit on
    its digits. *)
Definition match_number (max_digits : nat) (s : str) : scan json :=
  match integer_part s with
  | None => Malformed
  | Some (ipart, s2) =>
      let (frac, s3) := fraction_part s2 in
      let (expo, s4) := exponent_part s3 in
      match frac, expo with
      | [], [] =>
          if exceeds_max_str_digits max_digits ipart
          then TooManyDigits ipart
          else Scanned (JInt (int_of_integer_part ipart)) s4
      | _, _ => Scanned (JFloat (ipart ++ frac ++ expo)) s4
      end
  end.

(** [null], [true], [false], [NaN], [Infinity] and [-Infinity]. *)
Definition scan_constant (s : str) : option (json * str) :=
  if startswith s (py "null") then Some (JNull, skipn 4 s)
  else if startswith s (py "true") then Some (JBool true, skipn 4 s)
  else if startswith s (py "false") then Some (JBool false, skipn 5 s)
  else if startswith s (py "NaN") then Some (JFloat (py "NaN"), skipn 3 s)
  else if startswith s (py "Infinity")
       then Some (JFloat (py "Infinity"), skipn 8 s)
  else if startswith s (py "-Infinity")
       then Some (JFloat (py "-Infinity"), skipn 9 s)
  else None.

(** A value that is neither a string, an object nor an array.  The
    scanner has [null], [true] and [false] at hand; [NaN], [Infinity] and
    [-Infinity] it gets by a call ([parse_constant]), for which there
    must be room. *)
Definition scan_atom (max_digits depth : nat) (s : str) : scan json :=
  match scan_constant s with
  | Some (JFloat lexeme, r) =>
      match depth with
      | O => TooDeep
      | S _ => Scanned (JFloat lexeme) r
      end
  | Some (v, r) => Scanned v r
  | None => match_number max_digits s
  end.

(** [scan_once] reads one value; [scan_members] the members of an object
    after its opening brace, [scan_items] the items of an array after its
    opening bracket, when the object or array is not empty.

    [depth] is the number of calls, one inside the other, that the
    scanner can still make: it makes one at each opening brace or
    bracket, before it looks at what follows, and is back from it at the
    end of the object or array.  Each call spends one unit of [fuel],
    which only makes the recursion structural (see [decode_has_fuel]). *)
Fixpoint scan_once (max_digits fuel depth : nat) (s : str) {struct fuel}
  : scan json :=
  match fuel with
  | O => OutOfFuel
  | S fuel' =>
      match s with
      | [] => Malformed
      | c :: r =>
          if is_quote c then
            match scanstring r [] with
            | Some (v, r') => Scanned (JStr v) r'
            | None => Malformed
            end
          else if is_char "{" c then
            match depth with
            | O => TooDeep
            | S depth' =>
                match skip_ws r with
                | [] => Malformed
                | c' :: r' =>
                    if is_char "}" c' then Scanned (JObj []) r'
                    else scan_members max_digits fuel' depth' (c' :: r') []
                end
            end
          else if is_char "[" c then
            match depth with
            | O => TooDeep
            | S depth' =>
                match skip_ws r with
                | [] => Malformed
                | c' :: r' =>
                    if is_char "]" c' then Scanned (JArr []) r'
                    else scan_items max_digits fuel' depth' (c' :: r') []
                end
            end
          else scan_atom max_digits depth s
      end
  end
with scan_members (max_digits fuel depth : nat) (s : str)
  (acc : list (str * json)) {struct fuel} : scan json :=
  match fuel with
  | O => OutOfFuel
  | S fuel' =>
      match s with
      | [] => Malformed
      | c :: r =>
          if is_quote c then
            match scanstring r [] with
            | None => Malformed
            | Some (key, r1) =>
                match skip_ws r1 with
                | [] => Malformed
                | c1 :: r2 =>
                    if is_char ":" c1 then
                      match scan_once max_digits fuel' depth (skip_ws r2) with
                      | Scanned v r3 =>
                          let acc' := dict_set acc key v in
                          match skip_ws r3 with
                          | [] => Malformed
                          | c3 :: r4 =>
                              if is_char "}" c3 then Scanned (JObj acc') r4
                              else if is_char "," c3
                              then scan_members max_digits fuel' depth
                                     (skip_ws r4) acc'
                              else Malformed
                          end
                      | Malformed => Malformed
                      | TooDeep => TooDeep
                      | TooManyDigits text => TooManyDigits text
                      | OutOfFuel => OutOfFuel
                      end
                    else Malformed
                end
            end
          else Malformed
      end
  end
with scan_items (max_digits fuel depth : nat) (s : str) (acc : list json)
  {struct fuel} : scan json :=
  match fuel with
  | O => OutOfFuel
  | S fuel' =>
      match scan_once max_digits fuel' depth s with
      | Scanned v r =>
          match skip_ws r with
          | [] => Malformed
          | c :: r' =>
              if is_char "]" c then Scanned (JArr (acc ++ [v])) r'
              else if is_char "," c
              then scan_items max_digits fuel' depth (skip_ws r') (acc ++ [v])
              else Malformed
          end
      | Malformed => Malformed
      | TooDeep => TooDeep
      | TooManyDigits text => TooManyDigits text
      | OutOfFuel => OutOfFuel
      end
  end.

(** Between two calls of the scanner at least one character is read, or
    the second is the first scan of an item; twice the length of the
    input, and two, is fuel enough (see [decode_has_fuel]). *)
Definition fuel_for (s : str) : nat := 2 * List.length s + 2.

(** [JSONDecoder().decode(s)] under the two limits: a leading byte-order
    mark is refused, one value is read between optional whitespace, and
    nothing may follow. *)
Definition decode_with (max_digits depth : nat) (s : str) : scan json :=
  if startswith s [0xFEFF%N] then Malformed
  else
    match scan_once max_digits (fuel_for s) depth (skip_ws s) with
    | Scanned v rest =>
        match skip_ws rest with
        | [] => Scanned v []
        | _ :: _ => Malformed
        end
    | Malformed => Malformed
    | TooDeep => TooDeep
    | TooManyDigits text => TooManyDigits text
    | OutOfFuel => OutOfFuel
    end.

(** The limits of the interpreter (CPython 3.11, whose [json] scans with
    the module [_json]) that a document can reach.

    [max_nesting] is the number of calls, one inside the other, that the
    scanner can make where the handler calls [json.loads], before the
    recursion limit stops it: so many objects and arrays can be nested,
    one less around [NaN], [Infinity] and [-Infinity].  It is at least
    one: the calls that the handler makes for itself are taken to run,
    and [json.dumps] of a flat dictionary, which writes every response,
    the 500 response too, goes as deep as [json.loads] of a flat object.

    [int_max_str_digits] is [sys.get_int_max_str_digits()], 4300 unless
    configured and 0 when the limit is off.

    Raising takes frames too: a scanner that refuses a text close to the
    recursion limit fails to build its own exception and
    [RecursionError] is raised in its place.  How close is a matter of
    the build of the interpreter and of what is on the stack;
    [too_deep_to_raise] tells for which texts this happens. *)
Record Interpreter : Type := {
  max_nesting : positive;
  int_max_str_digits : nat;
  too_deep_to_raise : str -> bool
}.

(** Decoding in an interpreter. *)
Definition decode_in (i : Interpreter) (s : str) : scan json :=
  decode_with (int_max_str_digits i) (Pos.to_nat (max_nesting i)) s.

(** Decoding where no limit is in the way: what the text is as a JSON
    document.  The limit on digits is off, and there is room for as many
    nested values as the scanner has fuel, which the text cannot use up
    (see [decode_has_room]). *)
Definition decode (s : str) : scan json := decode_with 0 (fuel_for s) s.

(** *** Encoding *)

(** One character of [encode_basestring_ascii] ([ensure_ascii=True]). *)
Definition escape_char (c : char) : str :=
  if N.eqb c 34 then py "\" ++ [dquote]
  else if N.eqb c 92 then py "\\"
  else if N.eqb c 10 then py "\n"
  else if N.eqb c 13 then py "\r"
  else if N.eqb c 9 then py "\t"
  else if N.eqb c 8 then py "\b"
  else if N.eqb c 12 then py "\f"
  else if (32 <=? c)%N && (c <=? 126)%N then [c]
  else if (c <? 0x10000)%N then py "\u" ++ format_0x 4 c
  else
    let n := (c - 0x10000)%N in
    let s1 := N.lor 0xD800 (N.land (N.shiftr n 10) 0x3FF) in
    let s2 := N.lor 0xDC00 (N.land n 0x3FF) in
    py "\u" ++ format_0x 4 s1 ++ py "\u" ++ format_0x 4 s2.

Definition encode_basestring_ascii (s : str) : str :=
  dquote :: flat_map escape_char s ++ [dquote].

(** One member of an object, with the default key separator. *)
Definition dumps_member (kv : str * str) : str :=
  encode_basestring_ascii (fst kv) ++ py ": "
  ++ encode_basestring_ascii (snd kv).

(** [json.dumps(d)] for a [dict] whose keys and values are strings, with
    the default separators. *)
Definition json_dumps (d : list (str * str)) : str :=
  py "{" ++ join (py ", ") (map dumps_member d) ++ py "}".

End Json.
Import Json.

(* ------------------------------------------------------------------ *)
(** ** [uuid.uuid4] *)

Module Uuid.

(** [UUID(bytes=b, version=4).int], for [n] the sixteen random bytes [b]
    read as a big-endian integer: the variant and version bits are set. *)
Definition uuid4_int (n : N) : N :=
  let i := N.ldiff n (N.shiftl 0xc000 48) in
  let i := N.lor i (N.shiftl 0x8000 48) in
  let i := N.ldiff i (N.shiftl 0xf000 64) in
  N.lor i (N.shiftl 4 76).

(** [hex[a:b]] *)
Definition slice (a b : nat) (s : str) : str := firstn (b - a) (skipn a s).

(** [str(u)]: the 32 hexadecimal digits in groups of 8-4-4-4-12. *)
Definition uuid_str (i : N) : str :=
  let hex := format_0x 32 i in
  take 8 hex ++ py "-" ++ slice 8 12 hex ++ py "-" ++ slice 12 16 hex
  ++ py "-" ++ slice 16 20 hex ++ py "-" ++ skipn 20 hex.

End Uuid.

(* ------------------------------------------------------------------ *)
(** ** The handler *)

Module Handler.

(** *** Exceptions

    What the statements of the handler can raise.  All of them are
    instances of [Exception]; [BackendError] stands for the exceptions of
    the storage client, with the text of their message. *)
Inductive exn : Type :=
| JSONDecodeError (doc : str)
| RecursionError
| TypeError (obj : json)
| AttributeError (obj : json) (attr : str)
| KeyError (key : str)
| ValueError (text : str)
| IndexError
| BackendError (text : str).

Inductive outcome (A : Type) : Type :=
| Return (a : A)
| Raise (e : exn).
Arguments Raise {A}.

(** *** The world outside the handler *)

Record S3Client : Type := { region_name : str }.

(** The arguments of one call of [generate_presigned_url]. *)
Record PresignCall : Type := {
  ClientMethod : str;
  Bucket : str;
  Key : str;
  ContentType : str;
  ExpiresIn : Z;
  HttpMethod : str
}.

(** What one invocation reads from its surroundings: the clock
    ([int(time.time())]), sixteen random bytes ([os.urandom(16)], as a
    big-endian integer), the order in which a [set] of strings yields its
    members (it depends on the hash seed of the process), and the answer
    of the storage client to a signing request. *)
Record World : Type := {
  clock : Z;
  urandom : N;
  set_iter : list str -> list str;
  generate_presigned_url : S3Client -> PresignCall -> outcome str
}.

(** What one invocation does to its surroundings, in order. *)
Inductive io : Type :=
| IoPresign (client : S3Client) (call : PresignCall)
| IoPrint (prefix : str) (e : exn).

(** Computations of the handler: they read the world, append to the log
    of effects, and return or raise. *)
Definition M (A : Type) : Type := World -> list io -> outcome A * list io.

Definition ret (A : Type) (a : A) : M A := fun _ log => (Return a, log).
Definition raise (A : Type) (e : exn) : M A := fun _ log => (Raise e, log).
Arguments raise {A}.

Definition bind (A B : Type) (m : M A) (k : A -> M B) : M B :=
  fun w log =>
    match m w log with
    | (Return a, log') => k a w log'
    | (Raise e, log') => (Raise e, log')
    end.

Definition lift (A : Type) (o : outcome A) : M A := fun _ log => (o, log).

(** [try: m  except Exception as e: h e] *)
Definition try_except (A : Type) (m : M A) (h : exn -> M A) : M A :=
  fun w log =>
    match m w log with
    | (Return a, log') => (Return a, log')
    | (Raise e, log') => h e w log'
    end.

Declare Scope py_scope.
Delimit Scope py_scope with py.
Notation "x <- m ;; k" := (bind m (fun x => k))
  (at level 61, m at next level, right associativity) : py_scope.
Notation "m ;;; k" := (bind m (fun _ => k))
  (at level 61, right associativity) : py_scope.
Local Open Scope py_scope.

Definition time_time : M Z := fun w log => (Return (clock w), log).

Definition uuid_uuid4 : M N :=
  fun w log => (Return (Uuid.uuid4_int (urandom w)), log).

Definition iterate_set (members : list str) : M (list str) :=
  fun w log => (Return (set_iter w members), log).

Definition client_generate_presigned_url (client : S3Client)
  (call : PresignCall) : M str :=
  fun w log =>
    (generate_presigned_url w client call, log ++ [IoPresign client call]).

Definition print (prefix : str) (e : exn) : M unit :=
  fun _ log => (Return tt, log ++ [IoPrint prefix e]).

(** *** Methods on Python values *)

(** [obj.get(key, default)]: only a [dict] has the method. *)
Definition py_get (obj : json) (key : str) (default : json) : outcome json :=
  match obj with
  | JObj d =>
      Return (match dict_get d key with Some v => v | None => default end)
  | _ => Raise (AttributeError obj (py "get"))
  end.

(** The exception [e] of the scanner, or [RecursionError] where the
    scanner is too deep to raise it. *)
Definition raised_by_scanner (i : Interpreter) (doc : str) (e : exn) : exn :=
  if too_deep_to_raise i doc then RecursionError else e.

(** [json.loads(s)] in the interpreter [i]: the argument must be a [str]
    (or bytes, which a decoded event does not contain); a text that is
    not a JSON document, one nested too deep and one with too long an
    integer each raise their exception.  The scanner does not run out of
    fuel (see [decode_has_fuel]). *)
Definition json_loads (i : Interpreter) (s : json) : outcome json :=
  match s with
  | JStr doc =>
      match decode_in i doc with
      | Scanned v _ => Return v
      | Malformed => Raise (raised_by_scanner i doc (JSONDecodeError doc))
      | TooDeep => Raise RecursionError
      | TooManyDigits text => Raise (raised_by_scanner i doc (ValueError text))
      | OutOfFuel => Raise RecursionError
      end
  | _ => Raise (TypeError s)
  end.

(** [xs[-1]] *)
Definition last_item (xs : list str) : outcome str :=
  match rev xs with
  | x :: _ => Return x
  | [] => Raise IndexError
  end.

(** *** Module level: lines 8 to 13 *)

Record Globals : Type := {
  s3_client : S3Client;
  BUCKET_NAME : str;
  EXPIRE_SECONDS : Z
}.

(** [os.environ[name]] *)
Definition environ_item (environ : list (str * str)) (name : str)
  : outcome str :=
  match dict_get environ name with
  | Some v => Return v
  | None => Raise (KeyError name)
  end.

Definition outcome_bind (A B : Type) (o : outcome A) (k : A -> outcome B)
  : outcome B :=
  match o with
  | Return a => k a
  | Raise e => Raise e
  end.

(** The module body.  [boto3_client service region] is
    [boto3.client(service, region_name=region)], which returns a client
    or raises, for one on a region name that it does not accept;
    [int_of_str] is Python's [int] on a [str] ([None] where it raises
    [ValueError]); [int(120)] is [120]. *)
Definition module_init (boto3_client : str -> str -> outcome S3Client)
  (int_of_str : str -> option Z) (environ : list (str * str))
  : outcome Globals :=
  outcome_bind (environ_item environ (py "REGION")) (fun region =>
  outcome_bind (boto3_client (py "s3") region) (fun s3_client =>
  outcome_bind (environ_item environ (py "BUCKET_NAME")) (fun bucket_name =>
  outcome_bind
    (match dict_get environ (py "SIGNED_URL_EXPIRE") with
     | None => Return 120%Z
     | Some text =>
         match int_of_str text with
         | Some n => Return n
         | None => Raise (ValueError text)
         end
     end) (fun expire_seconds =>
  Return {| s3_client := s3_client;
            BUCKET_NAME := bucket_name;
            EXPIRE_SECONDS := expire_seconds |})))).

(** *** [lambda_handler] *)

Record response : Type := {
  statusCode : Z;
  headers : list (str * str);
  body : str
}.

Definition cors_headers : list (str * str) :=
  [ (py "Access-Control-Allow-Origin", py "*");
    (py "Access-Control-Allow-Headers", py "Content-Type") ].

Definition invalid_content_type_message : str :=
  py "Invalid contentType. Must start with " ++ [dquote] ++ py "image/"
  ++ [dquote] ++ py ".".

Definition internal_error_message : str :=
  py "Internal server error. Failed to generate upload URL.".

Definition allowed_types : list str :=
  [py "image/jpeg"; py "image/png"; py "image/gif"; py "image/webp"].

(** Line 50 *)
Definition unsupported_message (content_type : str) (listed : list str)
  : str :=
  py "Unsupported image type: " ++ content_type ++ py ". Allowed: "
  ++ join (py ", ") listed.

(** Line 58 *)
Definition object_key (timestamp : Z) (random_suffix ext : str) : str :=
  py "uploads/" ++ str_of_int timestamp ++ py "-" ++ random_suffix
  ++ py "." ++ ext.

(** Line 56 *)
Definition random_suffix_of (u : N) : str := take 6 (Uuid.uuid_str u).

(** Lines 61 to 70 *)
Definition put_object_call (g : Globals) (object_key content_type : str)
  : PresignCall :=
  {| ClientMethod := py "put_object";
     Bucket := BUCKET_NAME g;
     Key := object_key;
     ContentType := content_type;
     ExpiresIn := EXPIRE_SECONDS g;
     HttpMethod := py "PUT" |}.

(** Line 23: [json.loads(event.get('body', '{}'))] *)
Definition event_body (i : Interpreter) (event : json) : outcome json :=
  outcome_bind (py_get event (py "body") (JStr (py "{}"))) (json_loads i).

(** Lines 22 to 83: the body of the [try] statement. *)
Definition try_body (i : Interpreter) (g : Globals) (event context : json)
  : M response :=
  body <- lift (event_body i event) ;;
  content_type <- lift (py_get body (py "contentType") (JStr [])) ;;
  file_name <- lift (py_get body (py "fileName") (JStr [])) ;;
  match content_type with
  | JStr content_type =>
      if negb (startswith content_type (py "image/")) then
        ret {| statusCode := 400;
               headers := cors_headers;
               body := json_dumps
                         [(py "error", invalid_content_type_message)] |}
      else if negb (str_in content_type allowed_types) then
        listed <- iterate_set allowed_types ;;
        ret {| statusCode := 400;
               headers := cors_headers;
               body := json_dumps
                         [(py "error",
                           unsupported_message content_type listed)] |}
      else
        timestamp <- time_time ;;
        u <- uuid_uuid4 ;;
        let random_suffix := random_suffix_of u in
        ext <- lift (last_item (split content_type 47%N)) ;;
        let object_key := object_key timestamp random_suffix ext in
        presigned_url <-
          client_generate_presigned_url (s3_client g)
            (put_object_call g object_key content_type) ;;
        ret {| statusCode := 200;
               headers := cors_headers;
               body := json_dumps
                         [(py "url", presigned_url);
                          (py "key", object_key)] |}
  | other => raise (AttributeError other (py "startswith"))
  end.

(** Lines 85 to 97: the [except Exception as e] clause. *)
Definition except_clause (e : exn) : M response :=
  print (py "Error generating presigned URL: ") e ;;;
  ret {| statusCode := 500;
         headers := cors_headers;
         body := json_dumps [(py "error", internal_error_message)] |}.

Definition lambda_handler (i : Interpreter) (g : Globals)
  (event context : json) : M response :=
  try_except (try_body i g event context) except_clause.

(** One invocation, from an empty log. *)
Definition invoke (i : Interpreter) (g : Globals) (w : World) (event : json)
  : outcome response * list io :=
  lambda_handler i g event JNull w [].

(** The signing requests among the effects of an invocation. *)
Definition presign_calls (log : list io) : list (S3Client * PresignCall) :=
  flat_map (fun e => match e with
                     | IoPresign c call => [(c, call)]
                     | IoPrint _ _ => []
                     end) log.

End Handler.
Import Handler.

(* ------------------------------------------------------------------ *)
(** ** Vocabulary of the properties *)

(** The three fixed shapes of a response. *)
Definition error_response (status : Z) (message : str) : response :=
  {| statusCode := status;
     headers := cors_headers;
     body := json_dumps [(py "error", message)] |}.

Definition invalid_content_type_response : response :=
  error_response 400 invalid_content_type_message.

Definition internal_error_response : response :=
  error_response 500 internal_error_message.

Definition success_response (url key : str) : response :=
  {| statusCode := 200;
     headers := cors_headers;
     body := json_dumps [(py "url", url); (py "key", key)] |}.

(** The event carries no [body] entry. *)
Definition body_missing (event : json) : Prop :=
  exists entries, event = JObj entries /\ dict_get entries (py "body") = None.

(** The event carries a [body] that is a string but not a JSON document. *)
Definition body_unparsable (event : json) : Prop :=
  exists entries doc,
    event = JObj entries
    /\ dict_get entries (py "body") = Some (JStr doc)
    /\ decode doc = Malformed.

(** [limited a b]: the result [a], reached under some limits, is the
    result [b] unless it is one of the limits. *)
Definition limited (a b : scan json) : Prop :=
  match a with
  | Scanned _ _ | Malformed => b = a
  | TooDeep | TooManyDigits _ | OutOfFuel => True
  end.

(** An event whose [body] is the given text. *)
Definition event_with_body (doc : str) : json :=
  JObj [(py "body", JStr doc)].

(** [body.get('contentType', '')] on a decoded object *)
Definition content_type_of (d : list (str * json)) : json :=
  match dict_get d (py "contentType") with
  | Some v => v
  | None => JStr []
  end.

Definition is_str (v : json) : bool :=
  match v with
  | JStr _ => true
  | _ => false
  end.

(** The extension of a content type: what follows its last slash. *)
Definition ext_of (content_type : str) : str :=
  last (split content_type 47%N) [].

(** The key an invocation derives in world [w] for a content type. *)
Definition derived_key (w : World) (content_type : str) : str :=
  object_key (clock w) (random_suffix_of (Uuid.uuid4_int (urandom w)))
    (ext_of content_type).

(** *** Text that survives encoding and decoding *)

(** The code points of well-formed text: the Unicode scalar values. *)
Definition is_scalar (c : char) : bool :=
  (c <? 0xD800)%N || ((0xDFFF <? c)%N && (c <? 0x110000)%N).

Definition is_text (s : str) : bool := forallb is_scalar s.

(** [dict(items)], with string values *)
Definition dict_of_items (items : list (str * str)) (d : list (str * json))
  : list (str * json) :=
  fold_left (fun d kv => dict_set d (fst kv) (JStr (snd kv))) items d.

(** The [k] numbers from [start] on. *)
Fixpoint range (k : nat) (start : N) : list N :=
  match k with
  | O => []
  | S k' => start :: range k' (N.succ start)
  end.

(** The four digits of [c] after [\u] read back as [c]. *)
Definition u_escape_ok (c : N) : bool :=
  match format_0x 4 c with
  | [h1; h2; h3; h4] =>
      match hex4 h1 h2 h3 h4 with
      | Some u => N.eqb u c
      | None => false
      end
  | _ => false
  end.

Definition lor_is_add (base x : N) : bool := N.eqb (N.lor base x) (base + x).

(** *** A concrete deployment, for examples *)

(** Decimal digits only; enough for the examples. *)
Definition int_of_decimal (s : str) : option Z :=
  match s with
  | [] => None
  | _ => if forallb is_digit s then Some (int_of_digits s) else None
  end.

(** An interpreter with the default limits.  The texts that the examples
    have it refuse are refused far from the recursion limit, so that the
    scanner raises its own exception: [too_deep_to_raise] is false. *)
Definition demo_python : Interpreter :=
  {| max_nesting := 990;
     int_max_str_digits := 4300;
     too_deep_to_raise := fun _ => false |}.

(** A client factory that refuses a region name that is empty or has a
    character other than a letter, a digit or a dash. *)
Definition demo_boto3_client (service region : str) : outcome S3Client :=
  match region with
  | [] => Raise (BackendError (py "Invalid endpoint"))
  | _ :: _ =>
      if forallb Regex.is_alnum_dash region
      then Return {| region_name := region |}
      else Raise (BackendError (py "Provided region_name is not valid"))
  end.

Definition demo_environ : list (str * str) :=
  [(py "REGION", py "eu-west-1"); (py "BUCKET_NAME", py "uploads-bucket")].

Definition demo_globals : Globals :=
  {| s3_client := {| region_name := py "eu-west-1" |};
     BUCKET_NAME := py "uploads-bucket";
     EXPIRE_SECONDS := 120 |}.

(** A backend that signs every request. *)
Definition signing_backend (c : S3Client) (call : PresignCall) : outcome str :=
  Return (py "https://" ++ Bucket call ++ py ".s3." ++ region_name c
          ++ py ".amazonaws.com/" ++ Key call ++ py "?X-Amz-Expires="
          ++ str_of_int (ExpiresIn call)).

(** A backend that fails every request. *)
Definition failing_backend (c : S3Client) (call : PresignCall) : outcome str :=
  Raise (BackendError (py "Unable to locate credentials")).

Definition demo_world : World :=
  {| clock := 1700000000;
     urandom := 0x0123456789abcdef0123456789abcdef;
     set_iter := fun members => rev members;
     generate_presigned_url := signing_backend |}.

Definition failing_world : World :=
  {| clock := 1700000000;
     urandom := 0x0123456789abcdef0123456789abcdef;
     set_iter := fun members => rev members;
     generate_presigned_url := failing_backend |}.

(** Body texts with the quotes of JSON: [q] turns each apostrophe of a
    literal into a double quote. *)
Definition q (s : string) : str :=
  map (fun c => if N.eqb c 39 then dquote else c) (py s).

Definition second_world : World :=
  {| clock := 1700000000;
     urandom := 0xfedcba9876543210fedcba9876543210;
     set_iter := fun members => members;
     generate_presigned_url := signing_backend |}.

Definition png_event : json :=
  event_with_body (q "{'fileName': 'cat.png', 'contentType': 'image/png'}").
Definition bmp_event : json :=
  event_with_body (q "{'contentType': 'image/bmp'}").
Definition number_event : json :=
  event_with_body (q "{'contentType': 5}").
Definition garbage_event : json :=
  event_with_body (py "not json").

(** A request for a PNG whose [fileName] is [n] arrays, one inside the
    other, and one with a number of [n] digits beside the content type. *)
Definition nested_event (n : nat) : json :=
  event_with_body
    (q "{'contentType': 'image/png', 'fileName': "
     ++ repeat 91%N n ++ repeat 93%N n ++ py "}").

Definition long_number_event (n : nat) : json :=
  event_with_body
    (q "{'contentType': 'image/png', 'size': " ++ repeat 49%N n ++ py "}").

(** An interpreter with room for a flat object only, and too close to
    the recursion limit to raise what the scanner raises. *)
Definition cramped_python : Interpreter :=
  {| max_nesting := 1;
     int_max_str_digits := 4300;
     too_deep_to_raise := fun _ => true |}.

(** *** Vocabulary of the further properties *)

(** The line that the [except] clause prints starts with this text. *)
Definition error_prefix : str := py "Error generating presigned URL: ".

(** The exceptions printed during an invocation, in order. *)
Definition printed (log : list io) : list exn :=
  flat_map (fun e => match e with
                     | IoPrint _ e => [e]
                     | IoPresign _ _ => []
                     end) log.

(** The subtypes of the allowed content types. *)
Definition allowed_subtypes : list str :=
  [py "jpeg"; py "png"; py "gif"; py "webp"].

Definition jpeg_event : json :=
  event_with_body (q "{'contentType': 'image/jpeg'}").
Definition empty_type_event : json :=
  event_with_body (q "{'contentType': '', 'fileName': 'x'}").
Definition array_body_event : json := event_with_body (py "[1, 2]").

(** [sep in s] for a character *)
Definition has_char (sep : char) (s : str) : bool :=
  existsb (fun c => N.eqb c sep) s.

Definition has_slash (s : str) : bool := has_char 47%N s.

(** The characters of the keys of valid requests: lowercase letters,
    digits, the slash, the dash and the dot. *)
Definition is_key_char (c : char) : bool :=
  is_digit c || ((97 <=? c)%N && (c <=? 122)%N)
  || N.eqb c 47 || N.eqb c 45 || N.eqb c 46.

(** The [k] low hexadecimal digits of [n], most significant first. *)
Fixpoint hex_digits (k : nat) (n : N) : str :=
  match k with
  | O => []
  | S k' => hex_digits k' (n / 16) ++ [hex_char (n mod 16)]
  end.

(** The digit [d], below 16, put before the digits [u]. *)
Definition hex_cons (d : N) (u : Hexadecimal.uint) : Hexadecimal.uint :=
  match d with
  | 0 => Hexadecimal.D0 u
  | 1 => Hexadecimal.D1 u
  | 2 => Hexadecimal.D2 u
  | 3 => Hexadecimal.D3 u
  | 4 => Hexadecimal.D4 u
  | 5 => Hexadecimal.D5 u
  | 6 => Hexadecimal.D6 u
  | 7 => Hexadecimal.D7 u
  | 8 => Hexadecimal.D8 u
  | 9 => Hexadecimal.D9 u
  | 10 => Hexadecimal.Da u
  | 11 => Hexadecimal.Db u
  | 12 => Hexadecimal.Dc u
  | 13 => Hexadecimal.Dd u
  | 14 => Hexadecimal.De u
  | _ => Hexadecimal.Df u
  end%N.

(** The [k] low hexadecimal digits of [n], least significant first, as a
    number of the standard library. *)
Fixpoint little_digits (k : nat) (n : N) : Hexadecimal.uint :=
  match k with
  | O => Hexadecimal.Nil
  | S k' => hex_cons (n mod 16) (little_digits k' (n / 16))
  end.

(** The entries of a dictionary of strings, as decoded values. *)
Definition str_items (d : list (str * str)) : list (str * json) :=
  map (fun kv => (fst kv, JStr (snd kv))) d.

(** The characters of a Python [str]: the code points up to U+10FFFF,
    surrogates included. *)
Definition is_code_point (c : char) : bool := (c <? 0x110000)%N.

Definition is_pystr (s : str) : bool := forallb is_code_point s.

(** The keys of a decoded object, in order. *)
Definition keys_of (v : json) : list str :=
  match v with
  | JObj members => map fst members
  | _ => []
  end.

(** The content type is a string made of characters of Python. *)
Definition surrogate_event : json :=
  event_with_body (q "{'contentType': 'image/\ud83d'}").

(* ================================================================== *)
(** * Facts *)

(* ------------------------------------------------------------------ *)
(** ** Strings *)

Section StrFacts.

Lemma str_eqb_refl (a : str) : str_eqb a a = true.
Proof.
  induction a as [|x a IH]; simpl; [reflexivity|].
  now rewrite N.eqb_refl, IH.
Qed.

Lemma str_eqb_eq (a b : str) : str_eqb a b = true <-> a = b.
Proof.
  split.
  - revert b; induction a as [|x a IH]; intros [|y b]; simpl;
      try discriminate; [reflexivity|].
    intros H; apply andb_true_iff in H as [Hx Hr].
    apply N.eqb_eq in Hx; subst y. now rewrite (IH b Hr).
  - intros ->; apply str_eqb_refl.
Qed.

Lemma str_in_In (x : str) (xs : list str) : str_in x xs = true <-> In x xs.
Proof.
  unfold str_in; rewrite existsb_exists; split.
  - intros (y & Hy & E); apply str_eqb_eq in E; now subst.
  - intros H; exists x; split; [exact H | apply str_eqb_refl].
Qed.


Lemma startswith_inv (s p : str) :
  startswith s p = true -> exists rest, s = p ++ rest.
Proof.
  revert s; induction p as [|c p IH]; intros s H.
  - now exists s.
  - destruct s as [|x s]; simpl in H; [discriminate|].
    apply andb_true_iff in H as [Hx Hr]; apply N.eqb_eq in Hx; subst x.
    destruct (IH s Hr) as [rest ->]; now exists rest.
Qed.







Lemma forallb_firstn (A : Type) (p : A -> bool) (n : nat) (l : list A) :
  forallb p l = true -> forallb p (firstn n l) = true.
Proof.
  revert l; induction n as [|n IH]; intros [|x l]; simpl; auto.
  intros H; apply andb_true_iff in H as [Hx Hl]; rewrite Hx; simpl; auto.
Qed.

Lemma forallb_repeat (A : Type) (p : A -> bool) (x : A) (n : nat) :
  p x = true -> forallb p (repeat x n) = true.
Proof. intros H; induction n; simpl; [reflexivity | now rewrite H]. Qed.

(** *** Decimal and hexadecimal text *)

Lemma str_of_uint_digits (d : Decimal.uint) :
  forallb is_digit (str_of_uint d) = true.
Proof. induction d; simpl; auto. Qed.

Lemma str_of_uint_nonempty (d : Decimal.uint) :
  d <> Decimal.Nil -> str_of_uint d <> [].
Proof. destruct d; simpl; congruence. Qed.

(** The text of a non-negative [int] is a non-empty run of digits. *)
Lemma str_of_int_nonneg (n : Z) :
  (0 <= n)%Z ->
  str_of_int n <> [] /\ forallb is_digit (str_of_int n) = true.
Proof.
  intros Hn; unfold str_of_int; destruct n as [|p|p]; simpl.
  - split; [discriminate | reflexivity].
  - split; [|apply str_of_uint_digits].
    apply str_of_uint_nonempty, DecimalPos.Unsigned.to_uint_nonnil.
  - lia.
Qed.

Lemma str_of_hex_uint_hex (d : Hexadecimal.uint) :
  forallb is_lower_hex (str_of_hex_uint d) = true.
Proof. induction d; simpl; auto. Qed.

Lemma format_0x_hex (width : nat) (n : N) :
  forallb is_lower_hex (format_0x width n) = true.
Proof.
  unfold format_0x; rewrite forallb_app, str_of_hex_uint_hex.
  now rewrite forallb_repeat.
Qed.

Lemma format_0x_length (width : nat) (n : N) :
  width <= List.length (format_0x width n).
Proof.
  unfold format_0x; cbv zeta; rewrite length_app, repeat_length.
  unfold str, char; lia.
Qed.

(** The suffix of a key: six lowercase hexadecimal digits. *)
Lemma random_suffix_shape (u : N) :
  List.length (random_suffix_of u) = 6
  /\ forallb is_lower_hex (random_suffix_of u) = true.
Proof.
  unfold random_suffix_of, Uuid.uuid_str, take.
  pose proof (format_0x_length 32 u) as Hlen.
  pose proof (format_0x_hex 32 u) as Hhex.
  set (hex := format_0x 32 u) in *.
  assert (E : firstn 6 (firstn 8 hex ++ py "-" ++ Uuid.slice 8 12 hex
                        ++ py "-" ++ Uuid.slice 12 16 hex ++ py "-"
                        ++ Uuid.slice 16 20 hex ++ py "-" ++ skipn 20 hex)
              = firstn 6 hex).
  { rewrite firstn_app, firstn_firstn, length_firstn.
    replace (6 - Nat.min 8 (List.length hex)) with 0 by lia.
    now rewrite firstn_O, app_nil_r. }
  rewrite E; split.
  - rewrite length_firstn; lia.
  - now apply forallb_firstn.
Qed.

Lemma lower_hex_alnum_dash (c : char) :
  is_lower_hex c = true -> Regex.is_alnum_dash c = true.
Proof.
  unfold is_lower_hex, Regex.is_alnum_dash; intros H.
  apply orb_true_iff in H as [H|H].
  - rewrite H; simpl; now rewrite orb_true_r.
  - apply andb_true_iff in H as [H1 H2].
    apply N.leb_le in H1, H2.
    assert (Hz : (c <=? 122)%N = true) by (apply N.leb_le; lia).
    now rewrite (proj2 (N.leb_le _ _) H1), Hz, orb_true_r.
Qed.

(** Digits, signs and hexadecimal digits are text. *)
Lemma digit_is_scalar (c : char) : is_digit c = true -> is_scalar c = true.
Proof.
  unfold is_digit, is_scalar; intros H.
  apply andb_true_iff in H as [_ H]; apply N.leb_le in H.
  apply orb_true_iff; left; apply N.ltb_lt; lia.
Qed.

Lemma lower_hex_is_scalar (c : char) :
  is_lower_hex c = true -> is_scalar c = true.
Proof.
  unfold is_lower_hex; intros H; apply orb_true_iff in H as [H|H].
  - now apply digit_is_scalar.
  - apply andb_true_iff in H as [_ H]; apply N.leb_le in H.
    unfold is_scalar; apply orb_true_iff; left; apply N.ltb_lt; lia.
Qed.

Lemma forallb_impl (A : Type) (p p' : A -> bool) (l : list A) :
  (forall x, p x = true -> p' x = true) ->
  forallb p l = true -> forallb p' l = true.
Proof.
  intros Himp H; apply forallb_forall; intros x Hx.
  apply Himp, (proj1 (forallb_forall p l) H x Hx).
Qed.

Lemma str_of_int_text (n : Z) : is_text (str_of_int n) = true.
Proof.
  unfold str_of_int, is_text.
  destruct (Z.to_int n) as [d|d]; cbn [forallb];
    [|change (is_scalar 45%N) with true; cbn [andb]];
    apply (@forallb_impl _ is_digit is_scalar _ digit_is_scalar),
      str_of_uint_digits.
Qed.



Lemma object_key_text (timestamp : Z) (suffix ext : str) :
  is_text suffix = true -> is_text ext = true ->
  is_text (object_key timestamp suffix ext) = true.
Proof.
  intros Hs He; unfold object_key, is_text.
  rewrite !forallb_app.
  fold (is_text (str_of_int timestamp)); rewrite str_of_int_text.
  fold (is_text suffix); fold (is_text ext); rewrite Hs, He; reflexivity.
Qed.

End StrFacts.

(* ------------------------------------------------------------------ *)
(** ** The decoder reads forward and never runs out of fuel *)

Section DecoderFacts.

Ltac break_match_in H :=
  match type of H with
  | context [match ?x with _ => _ end] => destruct x eqn:?
  end.

Lemma skip_ws_length (s : str) : List.length (skip_ws s) <= List.length s.
Proof.
  induction s as [|c s IH]; simpl; [lia|].
  destruct (is_ws c); simpl; lia.
Qed.

Lemma scanstring_length_bounded (n : nat) :
  forall s acc v r,
    List.length s <= n ->
    scanstring s acc = Some (v, r) ->
    List.length r < List.length s.
Proof.
  induction n as [|n IH]; intros s acc v r Hn H.
  - destruct s; [discriminate | simpl in Hn; lia].
  - destruct s as [|c s]; [discriminate|].
    cbn [scanstring] in H; simpl List.length in *.
    repeat (break_match_in H; try discriminate);
      simpl List.length in *;
      first [ injection H as _ <-; lia
            | apply IH in H; simpl List.length in *; lia ].
Qed.

(** The string scanner consumes at least the closing quote. *)
Lemma scanstring_length (s acc v r : str) :
  scanstring s acc = Some (v, r) -> List.length r < List.length s.
Proof. apply (scanstring_length_bounded (n := List.length s)); lia. Qed.

Lemma span_digits_length (s ds r : str) :
  span_digits s = (ds, r) -> List.length r <= List.length s.
Proof.
  revert ds r; induction s as [|c s IH]; intros ds r H; simpl in H.
  - injection H as _ <-; simpl; lia.
  - destruct (is_digit c).
    + destruct (span_digits s) as [ds' r'] eqn:E.
      injection H as _ <-. specialize (IH _ _ eq_refl); simpl; lia.
    + injection H as _ <-; simpl; lia.
Qed.

Lemma integer_part_length (s t r : str) :
  integer_part s = Some (t, r) -> List.length r < List.length s.
Proof.
  unfold integer_part; intros H.
  destruct s as [|c s]; [discriminate|].
  destruct (is_char "-" c).
  - destruct s as [|c' s']; [discriminate|].
    destruct (is_char "0" c'); [injection H as _ <-; simpl; lia|].
    destruct (is_digit c'); [|discriminate].
    destruct (span_digits s') as [ds rest] eqn:E.
    apply span_digits_length in E; injection H as _ <-; simpl; lia.
  - destruct (is_char "0" c); [injection H as _ <-; simpl; lia|].
    destruct (is_digit c); [|discriminate].
    destruct (span_digits s) as [ds rest] eqn:E.
    apply span_digits_length in E; injection H as _ <-; simpl; lia.
Qed.

Lemma fraction_part_length (s t r : str) :
  fraction_part s = (t, r) -> List.length r <= List.length s.
Proof.
  unfold fraction_part; intros H.
  destruct s as [|c s]; [injection H as _ <-; lia|].
  destruct (is_char "." c); [|injection H as _ <-; lia].
  destruct (span_digits s) as [ds rest] eqn:E.
  apply span_digits_length in E.
  destruct ds; injection H as _ <-; simpl; lia.
Qed.

Lemma exponent_part_length (s t r : str) :
  exponent_part s = (t, r) -> List.length r <= List.length s.
Proof.
  unfold exponent_part; intros H.
  destruct s as [|e s]; [injection H as _ <-; lia|].
  destruct (is_char "e" e || is_char "E" e); [|injection H as _ <-; lia].
  assert (L : forall esign r',
             (esign, r') = match s with
                           | x :: r'' =>
                               if is_char "-" x || is_char "+" x
                               then ([x], r'') else ([], s)
                           | [] => ([], s)
                           end -> List.length r' <= List.length s).
  { intros esign r' E; destruct s as [|x s'].
    - injection E as _ ->; lia.
    - destruct (is_char "-" x || is_char "+" x);
        injection E as _ ->; simpl; lia. }
  destruct (match s with
            | x :: r'' =>
                if is_char "-" x || is_char "+" x then ([x], r'') else ([], s)
            | [] => ([], s)
            end) as [esign r'] eqn:E0.
  specialize (L esign r' eq_refl).
  destruct (span_digits r') as [ds rest] eqn:E.
  apply span_digits_length in E.
  destruct ds; injection H as _ <-; simpl; lia.
Qed.

Lemma match_number_length (m : nat) (s r : str) (v : json) :
  match_number m s = Scanned v r -> List.length r < List.length s.
Proof.
  unfold match_number; intros H.
  destruct (integer_part s) as [[ipart s2]|] eqn:E1; [|discriminate].
  destruct (fraction_part s2) as [frac s3] eqn:E2.
  destruct (exponent_part s3) as [expo s4] eqn:E3.
  apply integer_part_length in E1.
  apply fraction_part_length in E2.
  apply exponent_part_length in E3.
  destruct frac, expo; try (injection H as _ <-; lia).
  destruct (exceeds_max_str_digits m ipart); [discriminate|].
  injection H as _ <-; lia.
Qed.

Lemma startswith_skipn_length (s lit : str) :
  startswith s lit = true -> lit <> [] ->
  List.length (skipn (List.length lit) s) < List.length s.
Proof.
  intros H Hne; apply startswith_inv in H as [rest ->].
  rewrite skipn_app, skipn_all, Nat.sub_diag; simpl.
  rewrite length_app; destruct lit; [congruence | simpl; lia].
Qed.

Lemma scan_constant_length (s r : str) (v : json) :
  scan_constant s = Some (v, r) -> List.length r < List.length s.
Proof.
  unfold scan_constant; intros H.
  repeat match type of H with
         | (if startswith s ?lit then _ else _) = _ =>
             destruct (startswith s lit) eqn:?;
             [ injection H as _ <-;
               now apply (@startswith_skipn_length s lit) |]
         end.
  discriminate.
Qed.

Lemma scan_atom_length (m depth : nat) (s r : str) (v : json) :
  scan_atom m depth s = Scanned v r -> List.length r < List.length s.
Proof.
  unfold scan_atom; intros H.
  destruct (scan_constant s) as [[v' r']|] eqn:E1.
  - apply scan_constant_length in E1.
    destruct v'; try (injection H as _ <-; exact E1).
    destruct depth; [discriminate | injection H as _ <-; exact E1].
  - now apply match_number_length in H.
Qed.

Lemma match_number_cases (m : nat) (s : str) :
  match match_number m s with
  | Scanned _ _ | Malformed | TooManyDigits _ => True
  | TooDeep | OutOfFuel => False
  end.
Proof.
  unfold match_number.
  destruct (integer_part s) as [[ipart s2]|]; [|exact I].
  destruct (fraction_part s2) as [frac s3].
  destruct (exponent_part s3) as [expo s4].
  destruct frac, expo; try exact I.
  destruct (exceeds_max_str_digits m ipart); exact I.
Qed.

Lemma scan_atom_has_fuel (m depth : nat) (s : str) :
  scan_atom m depth s <> OutOfFuel.
Proof.
  unfold scan_atom.
  destruct (scan_constant s) as [[v r]|].
  - destruct v; try discriminate. destruct depth; discriminate.
  - pose proof (match_number_cases m s) as H.
    destruct (match_number m s); try discriminate; destruct H.
Qed.

Lemma scan_atom_not_deep (m depth : nat) (s : str) :
  scan_atom m (S depth) s <> TooDeep.
Proof.
  unfold scan_atom.
  destruct (scan_constant s) as [[v r]|].
  - destruct v; discriminate.
  - pose proof (match_number_cases m s) as H.
    destruct (match_number m s); try discriminate; destruct H.
Qed.

(** Every successful scan leaves a strictly shorter input. *)
Lemma scan_length (m fuel : nat) :
  (forall depth s v r,
     scan_once m fuel depth s = Scanned v r -> List.length r < List.length s)
  /\ (forall depth s acc v r,
        scan_members m fuel depth s acc = Scanned v r ->
        List.length r < List.length s)
  /\ (forall depth s acc v r,
        scan_items m fuel depth s acc = Scanned v r ->
        List.length r < List.length s).
Proof.
  induction fuel as [|fuel (IHonce & IHmembers & IHitems)].
  - repeat split; intros; discriminate.
  - split; [|split].
    + intros depth s v r H; destruct s as [|c s]; [discriminate|].
      cbn [scan_once] in H; simpl List.length.
      destruct (is_quote c).
      { destruct (scanstring s []) as [[v' r']|] eqn:E; [|discriminate].
        injection H as _ <-; apply scanstring_length in E; lia. }
      destruct (is_char "{" c).
      { destruct depth as [|depth]; [discriminate|].
        pose proof (skip_ws_length s) as L.
        destruct (skip_ws s) as [|c' r']; [discriminate|].
        simpl List.length in L.
        destruct (is_char "}" c'); [injection H as _ <-; lia|].
        apply IHmembers in H; simpl List.length in H; lia. }
      destruct (is_char "[" c).
      { destruct depth as [|depth]; [discriminate|].
        pose proof (skip_ws_length s) as L.
        destruct (skip_ws s) as [|c' r']; [discriminate|].
        simpl List.length in L.
        destruct (is_char "]" c'); [injection H as _ <-; lia|].
        apply IHitems in H; simpl List.length in H; lia. }
      apply scan_atom_length in H; simpl List.length in H; lia.
    + intros depth s acc v r H; destruct s as [|c s]; [discriminate|].
      cbn [scan_members] in H; simpl List.length.
      destruct (is_quote c); [|discriminate].
      destruct (scanstring s []) as [[key r1]|] eqn:E; [|discriminate].
      apply scanstring_length in E.
      pose proof (skip_ws_length r1) as L1.
      destruct (skip_ws r1) as [|c1 r2]; [discriminate|].
      simpl List.length in L1.
      destruct (is_char ":" c1); [|discriminate].
      pose proof (skip_ws_length r2) as L2.
      destruct (scan_once m fuel depth (skip_ws r2)) as [v3 r3| | | |] eqn:E3;
        try discriminate.
      apply IHonce in E3.
      pose proof (skip_ws_length r3) as L3.
      destruct (skip_ws r3) as [|c3 r4]; [discriminate|].
      simpl List.length in L3.
      destruct (is_char "}" c3); [injection H as _ <-; lia|].
      destruct (is_char "," c3); [|discriminate].
      apply IHmembers in H.
      pose proof (skip_ws_length r4); lia.
    + intros depth s acc v r H; cbn [scan_items] in H.
      destruct (scan_once m fuel depth s) as [v1 r1| | | |] eqn:E1;
        try discriminate.
      apply IHonce in E1.
      pose proof (skip_ws_length r1) as L1.
      destruct (skip_ws r1) as [|c1 r2]; [discriminate|].
      simpl List.length in L1.
      destruct (is_char "]" c1); [injection H as _ <-; lia|].
      destruct (is_char "," c1); [|discriminate].
      apply IHitems in H.
      pose proof (skip_ws_length r2); lia.
Qed.

(** With fuel above twice the length of the input the scanner does not
    run out. *)
Lemma scan_has_fuel (m fuel : nat) :
  (forall depth s,
     2 * List.length s + 1 <= fuel -> scan_once m fuel depth s <> OutOfFuel)
  /\ (forall depth s acc,
        2 * List.length s + 2 <= fuel ->
        scan_members m fuel depth s acc <> OutOfFuel)
  /\ (forall depth s acc,
        2 * List.length s + 2 <= fuel ->
        scan_items m fuel depth s acc <> OutOfFuel).
Proof.
  induction fuel as [|fuel (IHonce & IHmembers & IHitems)].
  - repeat split; intros; lia.
  - split; [|split].
    + intros depth s Hf; destruct s as [|c s]; [discriminate|].
      cbn [scan_once]; simpl List.length in Hf.
      destruct (is_quote c).
      { destruct (scanstring s []) as [[v' r']|]; discriminate. }
      destruct (is_char "{" c).
      { destruct depth as [|depth]; [discriminate|].
        pose proof (skip_ws_length s) as L.
        destruct (skip_ws s) as [|c' r']; [discriminate|].
        destruct (is_char "}" c'); [discriminate|].
        apply IHmembers; lia. }
      destruct (is_char "[" c).
      { destruct depth as [|depth]; [discriminate|].
        pose proof (skip_ws_length s) as L.
        destruct (skip_ws s) as [|c' r']; [discriminate|].
        destruct (is_char "]" c'); [discriminate|].
        apply IHitems; lia. }
      apply scan_atom_has_fuel.
    + intros depth s acc Hf; destruct s as [|c s]; [discriminate|].
      cbn [scan_members]; simpl List.length in Hf.
      destruct (is_quote c); [|discriminate].
      destruct (scanstring s []) as [[key r1]|] eqn:E; [|discriminate].
      apply scanstring_length in E.
      pose proof (skip_ws_length r1) as L1.
      destruct (skip_ws r1) as [|c1 r2]; [discriminate|].
      simpl List.length in L1.
      destruct (is_char ":" c1); [|discriminate].
      pose proof (skip_ws_length r2) as L2.
      destruct (scan_once m fuel depth (skip_ws r2)) as [v3 r3| | | |] eqn:E3;
        try discriminate.
      * apply (proj1 (scan_length m fuel)) in E3.
        pose proof (skip_ws_length r3) as L3.
        destruct (skip_ws r3) as [|c3 r4]; [discriminate|].
        simpl List.length in L3.
        destruct (is_char "}" c3); [discriminate|].
        destruct (is_char "," c3); [|discriminate].
        pose proof (skip_ws_length r4).
        apply IHmembers; lia.
      * exfalso; revert E3; apply IHonce; lia.
    + intros depth s acc Hf; cbn [scan_items].
      destruct (scan_once m fuel depth s) as [v1 r1| | | |] eqn:E1;
        try discriminate.
      * apply (proj1 (scan_length m fuel)) in E1.
        pose proof (skip_ws_length r1) as L1.
        destruct (skip_ws r1) as [|c1 r2]; [discriminate|].
        simpl List.length in L1.
        destruct (is_char "]" c1); [discriminate|].
        destruct (is_char "," c1); [|discriminate].
        pose proof (skip_ws_length r2).
        apply IHitems; lia.
      * exfalso; revert E1; apply IHonce; lia.
Qed.

(** Decoding always ends: with a value, with a refusal of the text, or at
    one of the two limits. *)
Lemma decode_with_has_fuel (m depth : nat) (s : str) :
  decode_with m depth s <> OutOfFuel.
Proof.
  unfold decode_with.
  destruct (startswith s [0xFEFF%N]); [discriminate|].
  pose proof (skip_ws_length s) as L.
  destruct (scan_once m (fuel_for s) depth (skip_ws s)) as [v r| | | |] eqn:E;
    try discriminate.
  - destruct (skip_ws r); discriminate.
  - exfalso; revert E; apply (proj1 (scan_has_fuel m (fuel_for s))).
    unfold fuel_for; lia.
Qed.

Lemma decode_has_fuel (i : Interpreter) (s : str) : decode_in i s <> OutOfFuel.
Proof. apply decode_with_has_fuel. Qed.

(** More fuel does not change a result. *)
Lemma scan_fuel_monotone (m fuel : nat) :
  (forall depth s extra,
     scan_once m fuel depth s <> OutOfFuel ->
     scan_once m (fuel + extra) depth s = scan_once m fuel depth s)
  /\ (forall depth s acc extra,
        scan_members m fuel depth s acc <> OutOfFuel ->
        scan_members m (fuel + extra) depth s acc
        = scan_members m fuel depth s acc)
  /\ (forall depth s acc extra,
        scan_items m fuel depth s acc <> OutOfFuel ->
        scan_items m (fuel + extra) depth s acc
        = scan_items m fuel depth s acc).
Proof.
  induction fuel as [|fuel (IHonce & IHmembers & IHitems)].
  - repeat split; intros; simpl in *; congruence.
  - split; [|split].
    + intros depth s extra H; destruct s as [|c s]; [reflexivity|].
      cbn [scan_once Nat.add] in *.
      destruct (is_quote c); [reflexivity|].
      destruct (is_char "{" c).
      { destruct depth as [|depth]; [reflexivity|].
        destruct (skip_ws s) as [|c' r']; [reflexivity|].
        destruct (is_char "}" c'); [reflexivity|]. now apply IHmembers. }
      destruct (is_char "[" c); [|reflexivity].
      destruct depth as [|depth]; [reflexivity|].
      destruct (skip_ws s) as [|c' r']; [reflexivity|].
      destruct (is_char "]" c'); [reflexivity|]. now apply IHitems.
    + intros depth s acc extra H; destruct s as [|c s]; [reflexivity|].
      cbn [scan_members Nat.add] in *.
      destruct (is_quote c); [|reflexivity].
      destruct (scanstring s []) as [[key r1]|]; [|reflexivity].
      destruct (skip_ws r1) as [|c1 r2]; [reflexivity|].
      destruct (is_char ":" c1); [|reflexivity].
      rewrite IHonce
        by (intros E; rewrite E in H; congruence).
      destruct (scan_once m fuel depth (skip_ws r2)) as [v3 r3| | | |];
        try reflexivity.
      destruct (skip_ws r3) as [|c3 r4]; [reflexivity|].
      destruct (is_char "}" c3); [reflexivity|].
      destruct (is_char "," c3); [|reflexivity].
      now apply IHmembers.
    + intros depth s acc extra H; cbn [scan_items Nat.add] in *.
      rewrite IHonce
        by (intros E; rewrite E in H; congruence).
      destruct (scan_once m fuel depth s) as [v1 r1| | | |]; try reflexivity.
      destruct (skip_ws r1) as [|c1 r2]; [reflexivity|].
      destruct (is_char "]" c1); [reflexivity|].
      destruct (is_char "," c1); [|reflexivity].
      now apply IHitems.
Qed.

(** *** The limits *)

(** With room for as many nested values as there is fuel, the scanner
    does not stop for the depth. *)
Lemma scan_has_room (m fuel : nat) :
  (forall depth s,
     fuel <= depth -> scan_once m fuel depth s <> TooDeep)
  /\ (forall depth s acc,
        fuel <= depth -> scan_members m fuel depth s acc <> TooDeep)
  /\ (forall depth s acc,
        fuel <= depth -> scan_items m fuel depth s acc <> TooDeep).
Proof.
  induction fuel as [|fuel (IHonce & IHmembers & IHitems)].
  - repeat split; intros; discriminate.
  - split; [|split].
    + intros depth s Hd; destruct s as [|c s]; [discriminate|].
      cbn [scan_once].
      destruct (is_quote c).
      { destruct (scanstring s []) as [[v' r']|]; discriminate. }
      destruct (is_char "{" c).
      { destruct depth as [|depth]; [lia|].
        destruct (skip_ws s) as [|c' r']; [discriminate|].
        destruct (is_char "}" c'); [discriminate|].
        apply IHmembers; lia. }
      destruct (is_char "[" c).
      { destruct depth as [|depth]; [lia|].
        destruct (skip_ws s) as [|c' r']; [discriminate|].
        destruct (is_char "]" c'); [discriminate|].
        apply IHitems; lia. }
      destruct depth as [|depth]; [lia | apply scan_atom_not_deep].
    + intros depth s acc Hd; destruct s as [|c s]; [discriminate|].
      cbn [scan_members].
      destruct (is_quote c); [|discriminate].
      destruct (scanstring s []) as [[key r1]|]; [|discriminate].
      destruct (skip_ws r1) as [|c1 r2]; [discriminate|].
      destruct (is_char ":" c1); [|discriminate].
      destruct (scan_once m fuel depth (skip_ws r2)) as [v3 r3| | | |] eqn:E3;
        try discriminate.
      * destruct (skip_ws r3) as [|c3 r4]; [discriminate|].
        destruct (is_char "}" c3); [discriminate|].
        destruct (is_char "," c3); [|discriminate].
        apply IHmembers; lia.
      * exfalso; revert E3; apply IHonce; lia.
    + intros depth s acc Hd; cbn [scan_items].
      destruct (scan_once m fuel depth s) as [v1 r1| | | |] eqn:E1;
        try discriminate.
      * destruct (skip_ws r1) as [|c1 r2]; [discriminate|].
        destruct (is_char "]" c1); [discriminate|].
        destruct (is_char "," c1); [|discriminate].
        apply IHitems; lia.
      * exfalso; revert E1; apply IHonce; lia.
Qed.

(** With the limit on digits off, the scanner does not stop for the
    digits. *)
Lemma exceeds_off (text : str) : exceeds_max_str_digits 0 text = false.
Proof.
  unfold exceeds_max_str_digits; change (0 <? 0) with false.
  now rewrite andb_false_r.
Qed.

Lemma scan_atom_any_digits (depth : nat) (s : str) :
  forall text, scan_atom 0 depth s <> TooManyDigits text.
Proof.
  intros text; unfold scan_atom, match_number.
  destruct (scan_constant s) as [[v r]|];
    [destruct v; try discriminate; destruct depth; discriminate|].
  destruct (integer_part s) as [[ipart s2]|]; [|discriminate].
  destruct (fraction_part s2) as [frac s3].
  destruct (exponent_part s3) as [expo s4].
  rewrite exceeds_off; destruct frac, expo; discriminate.
Qed.

Lemma scan_any_digits (fuel : nat) :
  (forall depth s text, scan_once 0 fuel depth s <> TooManyDigits text)
  /\ (forall depth s acc text,
        scan_members 0 fuel depth s acc <> TooManyDigits text)
  /\ (forall depth s acc text,
        scan_items 0 fuel depth s acc <> TooManyDigits text).
Proof.
  induction fuel as [|fuel (IHonce & IHmembers & IHitems)].
  - repeat split; intros; discriminate.
  - split; [|split].
    + intros depth s text; destruct s as [|c s]; [discriminate|].
      cbn [scan_once].
      destruct (is_quote c).
      { destruct (scanstring s []) as [[v' r']|]; discriminate. }
      destruct (is_char "{" c).
      { destruct depth as [|depth]; [discriminate|].
        destruct (skip_ws s) as [|c' r']; [discriminate|].
        destruct (is_char "}" c'); [discriminate|].
        apply IHmembers. }
      destruct (is_char "[" c).
      { destruct depth as [|depth]; [discriminate|].
        destruct (skip_ws s) as [|c' r']; [discriminate|].
        destruct (is_char "]" c'); [discriminate|].
        apply IHitems. }
      apply scan_atom_any_digits.
    + intros depth s acc text; destruct s as [|c s]; [discriminate|].
      cbn [scan_members].
      destruct (is_quote c); [|discriminate].
      destruct (scanstring s []) as [[key r1]|]; [|discriminate].
      destruct (skip_ws r1) as [|c1 r2]; [discriminate|].
      destruct (is_char ":" c1); [|discriminate].
      destruct (scan_once 0 fuel depth (skip_ws r2)) as [v3 r3| | | |] eqn:E3;
        try discriminate.
      * destruct (skip_ws r3) as [|c3 r4]; [discriminate|].
        destruct (is_char "}" c3); [discriminate|].
        destruct (is_char "," c3); [|discriminate].
        apply IHmembers.
      * exfalso; revert E3; apply IHonce.
    + intros depth s acc text; cbn [scan_items].
      destruct (scan_once 0 fuel depth s) as [v1 r1| | | |] eqn:E1;
        try discriminate.
      * destruct (skip_ws r1) as [|c1 r2]; [discriminate|].
        destruct (is_char "]" c1); [discriminate|].
        destruct (is_char "," c1); [|discriminate].
        apply IHitems.
      * exfalso; revert E1; apply IHonce.
Qed.

Lemma scan_atom_limited (m d d' : nat) (s : str) :
  d <= d' -> limited (scan_atom m d s) (scan_atom 0 d' s).
Proof.
  intros Hd; unfold scan_atom, match_number.
  destruct (scan_constant s) as [[v r]|].
  { destruct v; try reflexivity.
    destruct d as [|d]; [exact I|].
    destruct d' as [|d']; [lia | reflexivity]. }
  destruct (integer_part s) as [[ipart s2]|]; [|reflexivity].
  destruct (fraction_part s2) as [frac s3].
  destruct (exponent_part s3) as [expo s4].
  rewrite exceeds_off.
  destruct frac, expo; try reflexivity.
  destruct (exceeds_max_str_digits m ipart); [exact I | reflexivity].
Qed.

(** Limits only stop the scanner: with more room and the limit on digits
    off, a value stays the value and a refusal stays a refusal. *)
Lemma scan_limited (m fuel : nat) :
  (forall d d' s,
     d <= d' -> limited (scan_once m fuel d s) (scan_once 0 fuel d' s))
  /\ (forall d d' s acc,
        d <= d' ->
        limited (scan_members m fuel d s acc) (scan_members 0 fuel d' s acc))
  /\ (forall d d' s acc,
        d <= d' ->
        limited (scan_items m fuel d s acc) (scan_items 0 fuel d' s acc)).
Proof.
  induction fuel as [|fuel (IHonce & IHmembers & IHitems)].
  - repeat split; intros; exact I.
  - split; [|split].
    + intros d d' s Hd; destruct s as [|c s]; [reflexivity|].
      cbn [scan_once].
      destruct (is_quote c).
      { destruct (scanstring s []) as [[v' r']|]; reflexivity. }
      destruct (is_char "{" c).
      { destruct d as [|d]; [exact I|].
        destruct d' as [|d']; [lia|].
        destruct (skip_ws s) as [|c' r']; [reflexivity|].
        destruct (is_char "}" c'); [reflexivity|].
        apply IHmembers; lia. }
      destruct (is_char "[" c).
      { destruct d as [|d]; [exact I|].
        destruct d' as [|d']; [lia|].
        destruct (skip_ws s) as [|c' r']; [reflexivity|].
        destruct (is_char "]" c'); [reflexivity|].
        apply IHitems; lia. }
      now apply scan_atom_limited.
    + intros d d' s acc Hd; destruct s as [|c s]; [reflexivity|].
      cbn [scan_members].
      destruct (is_quote c); [|reflexivity].
      destruct (scanstring s []) as [[key r1]|]; [|reflexivity].
      destruct (skip_ws r1) as [|c1 r2]; [reflexivity|].
      destruct (is_char ":" c1); [|reflexivity].
      pose proof (IHonce d d' (skip_ws r2) Hd) as H3.
      destruct (scan_once m fuel d (skip_ws r2)) as [v3 r3| | | |];
        try exact I; cbn [limited] in H3; rewrite H3; [|reflexivity].
      destruct (skip_ws r3) as [|c3 r4]; [reflexivity|].
      destruct (is_char "}" c3); [reflexivity|].
      destruct (is_char "," c3); [|reflexivity].
      now apply IHmembers.
    + intros d d' s acc Hd; cbn [scan_items].
      pose proof (IHonce d d' s Hd) as H1.
      destruct (scan_once m fuel d s) as [v1 r1| | | |];
        try exact I; cbn [limited] in H1; rewrite H1; [|reflexivity].
      destruct (skip_ws r1) as [|c1 r2]; [reflexivity|].
      destruct (is_char "]" c1); [reflexivity|].
      destruct (is_char "," c1); [|reflexivity].
      now apply IHitems.
Qed.

(** Where no limit is in the way a text is a document or is not. *)
Lemma decode_has_room (s : str) :
  (exists v, decode s = Scanned v []) \/ decode s = Malformed.
Proof.
  unfold decode, decode_with.
  destruct (startswith s [0xFEFF%N]); [now right|].
  pose proof (skip_ws_length s) as L.
  destruct (scan_once 0 (fuel_for s) (fuel_for s) (skip_ws s))
    as [v r| | |text|] eqn:E.
  - destruct (skip_ws r); [left; now exists v | now right].
  - now right.
  - exfalso; revert E; now apply (proj1 (scan_has_room 0 (fuel_for s))).
  - exfalso; revert E; apply (proj1 (scan_any_digits (fuel_for s))).
  - exfalso; revert E; apply (proj1 (scan_has_fuel 0 (fuel_for s))).
    unfold fuel_for; lia.
Qed.

(** What an interpreter decodes is what the text is as a document: its
    limits can only stop the decoding. *)
Lemma decode_in_limited (i : Interpreter) (s : str) :
  limited (decode_in i s) (decode s).
Proof.
  assert (Hscan : limited
            (scan_once (int_max_str_digits i) (fuel_for s)
               (Pos.to_nat (max_nesting i)) (skip_ws s))
            (scan_once 0 (fuel_for s) (fuel_for s) (skip_ws s))).
  { set (d := Pos.to_nat (max_nesting i)).
    destruct (Nat.le_ge_cases d (fuel_for s)) as [Hd|Hd].
    - now apply (proj1 (scan_limited (int_max_str_digits i) (fuel_for s))).
    - pose proof (proj1 (scan_limited (int_max_str_digits i) (fuel_for s))
                    d d (skip_ws s) (le_n d)) as H1.
      pose proof (proj1 (scan_limited 0 (fuel_for s))
                    (fuel_for s) d (skip_ws s) Hd) as H2.
      pose proof (proj1 (scan_has_room 0 (fuel_for s))
                    (fuel_for s) (skip_ws s) (le_n _)) as Hroom.
      pose proof (proj1 (scan_any_digits (fuel_for s))
                    (fuel_for s) (skip_ws s)) as Hdig.
      assert (Hfuel : scan_once 0 (fuel_for s) (fuel_for s) (skip_ws s)
                      <> OutOfFuel).
      { apply (proj1 (scan_has_fuel 0 (fuel_for s))).
        pose proof (skip_ws_length s); unfold fuel_for; lia. }
      destruct (scan_once 0 (fuel_for s) (fuel_for s) (skip_ws s))
        as [v r| | |text|]; try congruence;
        cbn [limited] in H2; rewrite H2 in H1; exact H1. }
  unfold decode_in, decode, decode_with.
  destruct (startswith s [0xFEFF%N]); [reflexivity|].
  destruct (scan_once (int_max_str_digits i) (fuel_for s)
              (Pos.to_nat (max_nesting i)) (skip_ws s))
    as [v r| | |text|]; try exact I; cbn [limited] in Hscan; rewrite Hscan.
  - destruct (skip_ws r); reflexivity.
  - reflexivity.
Qed.

End DecoderFacts.

(* ------------------------------------------------------------------ *)
(** ** Decoding what the encoder wrote *)

Section EncoderFacts.

Lemma range_In (k : nat) : forall start c,
  (start <= c < start + N.of_nat k)%N -> In c (range k start).
Proof.
  induction k as [|k IH]; intros start c H; [lia|].
  destruct (N.eq_dec c start) as [->|Hne]; [now left|].
  right; apply IH; lia.
Qed.

Lemma forallb_range (P : N -> bool) (k : nat) (c : N) :
  forallb P (range k 0) = true -> (c < N.of_nat k)%N -> P c = true.
Proof.
  intros H Hc; apply (proj1 (forallb_forall P _) H), range_In; lia.
Qed.

Lemma u_escape_ok_all : forallb u_escape_ok (range (Nat.pow 2 16) 0) = true.
Proof. vm_compute; reflexivity. Qed.

Lemma lor_high_all : forallb (lor_is_add 0xD800) (range (Nat.pow 2 10) 0) = true.
Proof. vm_compute; reflexivity. Qed.

Lemma lor_low_all : forallb (lor_is_add 0xDC00) (range (Nat.pow 2 10) 0) = true.
Proof. vm_compute; reflexivity. Qed.

Lemma pow_2_16 : N.of_nat (Nat.pow 2 16) = 0x10000%N.
Proof. vm_compute; reflexivity. Qed.

Lemma pow_2_10 : N.of_nat (Nat.pow 2 10) = 1024%N.
Proof. vm_compute; reflexivity. Qed.

(** Four hexadecimal digits written by the encoder are read back by the
    decoder as the same number. *)
Lemma u_escape (c : N) :
  (c < 0x10000)%N ->
  exists h1 h2 h3 h4,
    format_0x 4 c = [h1; h2; h3; h4] /\ hex4 h1 h2 h3 h4 = Some c.
Proof.
  intros Hc; rewrite <- pow_2_16 in Hc.
  pose proof (@forallb_range u_escape_ok _ c u_escape_ok_all Hc) as H.
  unfold u_escape_ok in H.
  destruct (format_0x 4 c) as [|h1 [|h2 [|h3 [|h4 [|]]]]]; try discriminate.
  exists h1, h2, h3, h4; split; [reflexivity|].
  destruct (hex4 h1 h2 h3 h4) as [u|]; [|discriminate].
  apply N.eqb_eq in H; now subst.
Qed.

Lemma lor_high (x : N) : (x < 1024)%N -> N.lor 0xD800 x = (0xD800 + x)%N.
Proof.
  intros Hx; rewrite <- pow_2_10 in Hx.
  apply N.eqb_eq, (@forallb_range (lor_is_add 0xD800) _ x lor_high_all Hx).
Qed.

Lemma lor_low (x : N) : (x < 1024)%N -> N.lor 0xDC00 x = (0xDC00 + x)%N.
Proof.
  intros Hx; rewrite <- pow_2_10 in Hx.
  apply N.eqb_eq, (@forallb_range (lor_is_add 0xDC00) _ x lor_low_all Hx).
Qed.

(** *** The string scanner, one leading character at a time *)

Lemma scanstring_quote (r acc : str) :
  scanstring (dquote :: r) acc = Some (rev acc, r).
Proof. reflexivity. Qed.

Lemma scanstring_plain (c : char) (r acc : str) :
  is_quote c = false -> is_char "\" c = false -> (c <? 32)%N = false ->
  scanstring (c :: r) acc = scanstring r (c :: acc).
Proof. intros H1 H2 H3; cbn [scanstring]; now rewrite H1, H2, H3. Qed.

Lemma scanstring_u (h1 h2 h3 h4 : char) (u : N) (r acc : str) :
  hex4 h1 h2 h3 h4 = Some u -> is_high_surrogate u = false ->
  scanstring (py "\u" ++ [h1; h2; h3; h4] ++ r) acc = scanstring r (u :: acc).
Proof.
  intros H1 H2.
  change (py "\u" ++ [h1; h2; h3; h4] ++ r)
    with (92%N :: 117%N :: h1 :: h2 :: h3 :: h4 :: r).
  cbn [scanstring].
  change (is_quote 92%N) with false; change (is_char "\" 92%N) with true.
  change (is_char "u" 117%N) with true; cbv iota.
  now rewrite H1, H2.
Qed.

Lemma scanstring_pair (h1 h2 h3 h4 g1 g2 g3 g4 : char) (hi lo : N)
  (r acc : str) :
  hex4 h1 h2 h3 h4 = Some hi -> is_high_surrogate hi = true ->
  hex4 g1 g2 g3 g4 = Some lo -> is_low_surrogate lo = true ->
  scanstring (py "\u" ++ [h1; h2; h3; h4] ++ py "\u" ++ [g1; g2; g3; g4] ++ r)
    acc
  = scanstring r (join_surrogates hi lo :: acc).
Proof.
  intros H1 H2 H3 H4.
  change (py "\u" ++ [h1; h2; h3; h4] ++ py "\u" ++ [g1; g2; g3; g4] ++ r)
    with (92%N :: 117%N :: h1 :: h2 :: h3 :: h4
          :: 92%N :: 117%N :: g1 :: g2 :: g3 :: g4 :: r).
  cbn [scanstring].
  change (is_quote 92%N) with false; change (is_char "\" 92%N) with true.
  change (is_char "u" 117%N) with true; cbv iota.
  rewrite H1, H2; cbn [andb]; now rewrite H3, H4.
Qed.

(** What the encoder writes for one character of text, the decoder reads
    as that character. *)
Lemma scanstring_escape_char (c : char) (tail acc : str) :
  is_scalar c = true ->
  scanstring (escape_char c ++ tail) acc = scanstring tail (c :: acc).
Proof.
  intros Hc; unfold escape_char.
  destruct (N.eqb c 34) eqn:E34; [apply N.eqb_eq in E34; now subst|].
  destruct (N.eqb c 92) eqn:E92; [apply N.eqb_eq in E92; now subst|].
  destruct (N.eqb c 10) eqn:E10; [apply N.eqb_eq in E10; now subst|].
  destruct (N.eqb c 13) eqn:E13; [apply N.eqb_eq in E13; now subst|].
  destruct (N.eqb c 9) eqn:E9; [apply N.eqb_eq in E9; now subst|].
  destruct (N.eqb c 8) eqn:E8; [apply N.eqb_eq in E8; now subst|].
  destruct (N.eqb c 12) eqn:E12; [apply N.eqb_eq in E12; now subst|].
  destruct ((32 <=? c)%N && (c <=? 126)%N) eqn:Eprint.
  { apply andb_true_iff in Eprint as [Hlo _]; apply N.leb_le in Hlo.
    apply scanstring_plain; [exact E34 | exact E92 | apply N.ltb_ge; lia]. }
  unfold is_scalar in Hc.
  destruct (c <? 0x10000)%N eqn:Ebmp.
  - apply N.ltb_lt in Ebmp.
    destruct (u_escape Ebmp) as (h1 & h2 & h3 & h4 & -> & Hhex).
    rewrite <- app_assoc; apply scanstring_u; [exact Hhex|].
    unfold is_high_surrogate.
    apply orb_true_iff in Hc as [Hc|Hc].
    + apply N.ltb_lt in Hc.
      apply andb_false_iff; left; apply N.leb_gt; lia.
    + apply andb_true_iff in Hc as [Hc _]; apply N.ltb_lt in Hc.
      apply andb_false_iff; right; apply N.leb_gt; lia.
  - apply N.ltb_ge in Ebmp.
    assert (Htop : (c < 0x110000)%N).
    { apply orb_true_iff in Hc as [Hc|Hc].
      - apply N.ltb_lt in Hc; lia.
      - apply andb_true_iff in Hc as [_ Hc]; now apply N.ltb_lt in Hc. }
    cbv zeta.
    set (n := (c - 0x10000)%N).
    assert (Hn : (n < 1024 * 1024)%N) by (unfold n; lia).
    assert (H1 : N.land (N.shiftr n 10) 0x3FF = (n / 1024)%N).
    { change 0x3FF%N with (N.ones 10).
      rewrite N.land_ones, N.shiftr_div_pow2.
      change (2 ^ 10)%N with 1024%N.
      apply N.mod_small, N.Div0.div_lt_upper_bound; lia. }
    assert (H2 : N.land n 0x3FF = (n mod 1024)%N).
    { change 0x3FF%N with (N.ones 10); now rewrite N.land_ones. }
    assert (Hq : (n / 1024 < 1024)%N)
      by (apply N.Div0.div_lt_upper_bound; lia).
    assert (Hr : (n mod 1024 < 1024)%N) by (apply N.mod_lt; lia).
    rewrite H1, H2, (lor_high Hq), (lor_low Hr).
    destruct (@u_escape (0xD800 + n / 1024)%N) as (h1 & h2 & h3 & h4 & -> & Hh);
      [lia|].
    destruct (@u_escape (0xDC00 + n mod 1024)%N) as (g1 & g2 & g3 & g4 & -> & Hg);
      [lia|].
    rewrite <- !app_assoc.
    rewrite (@scanstring_pair _ _ _ _ _ _ _ _ _ (0xDC00 + n mod 1024)%N tail acc Hh).
    + f_equal; f_equal; unfold join_surrogates.
      rewrite N.shiftl_mul_pow2; change (2 ^ 10)%N with 1024%N.
      pose proof (N.div_mod n 1024); unfold n in *; lia.
    + unfold is_high_surrogate; apply andb_true_iff; split; apply N.leb_le; lia.
    + exact Hg.
    + unfold is_low_surrogate; apply andb_true_iff; split; apply N.leb_le; lia.
Qed.

(** The decoder reads back the text that the encoder wrote. *)
Lemma scanstring_encode (s tail acc : str) :
  is_text s = true ->
  scanstring (flat_map escape_char s ++ dquote :: tail) acc
  = Some (rev acc ++ s, tail).
Proof.
  revert acc; induction s as [|c s IH]; intros acc Hs.
  - simpl; now rewrite app_nil_r.
  - unfold is_text in Hs; simpl in Hs; apply andb_true_iff in Hs as [Hc Hs].
    cbn [flat_map]; rewrite <- app_assoc, (@scanstring_escape_char c _ _ Hc).
    rewrite (IH _ Hs); cbn [rev]; now rewrite <- app_assoc.
Qed.

(** *** Objects *)

(** One step of the scanner of members. *)
Lemma scan_members_S (m fuel depth : nat) (s : str)
  (acc : list (str * json)) :
  scan_members m (S fuel) depth s acc
  = match s with
    | [] => Malformed
    | c :: r =>
        if is_quote c then
          match scanstring r [] with
          | None => Malformed
          | Some (key, r1) =>
              match skip_ws r1 with
              | [] => Malformed
              | c1 :: r2 =>
                  if is_char ":" c1 then
                    match scan_once m fuel depth (skip_ws r2) with
                    | Scanned v r3 =>
                        match skip_ws r3 with
                        | [] => Malformed
                        | c3 :: r4 =>
                            if is_char "}" c3
                            then Scanned (JObj (dict_set acc key v)) r4
                            else if is_char "," c3
                            then scan_members m fuel depth (skip_ws r4)
                                   (dict_set acc key v)
                            else Malformed
                        end
                    | Malformed => Malformed
                    | TooDeep => TooDeep
                    | TooManyDigits text => TooManyDigits text
                    | OutOfFuel => OutOfFuel
                    end
                  else Malformed
              end
          end
        else Malformed
    end.
Proof. reflexivity. Qed.

Lemma encode_app (s tail : str) :
  encode_basestring_ascii s ++ tail
  = dquote :: flat_map escape_char s ++ dquote :: tail.
Proof.
  unfold encode_basestring_ascii; cbn [app]; now rewrite <- app_assoc.
Qed.

Lemma dumps_member_app (k v tail : str) :
  dumps_member (k, v) ++ tail
  = dquote :: flat_map escape_char k
    ++ dquote :: 58%N :: 32%N :: encode_basestring_ascii v ++ tail.
Proof.
  unfold dumps_member; cbn [fst snd].
  now rewrite <- !app_assoc, encode_app.
Qed.

Lemma scan_once_string (m fuel depth : nat) (s tail : str) :
  is_text s = true ->
  scan_once m (S fuel) depth (encode_basestring_ascii s ++ tail)
  = Scanned (JStr s) tail.
Proof.
  intros Hs; rewrite encode_app; cbn [scan_once].
  change (is_quote dquote) with true; cbv iota.
  now rewrite scanstring_encode by assumption.
Qed.

(** One member, followed by a character that is not whitespace. *)
Lemma scan_members_member (m fuel depth : nat) (k v : str) (c3 : char)
  (r4 : str) (acc : list (str * json)) :
  is_text k = true -> is_text v = true -> is_ws c3 = false ->
  scan_members m (S (S fuel)) depth (dumps_member (k, v) ++ c3 :: r4) acc
  = if is_char "}" c3 then Scanned (JObj (dict_set acc k (JStr v))) r4
    else if is_char "," c3
         then scan_members m (S fuel) depth (skip_ws r4)
                (dict_set acc k (JStr v))
         else Malformed.
Proof.
  intros Hk Hv Hc3; rewrite dumps_member_app, scan_members_S.
  change (is_quote dquote) with true; cbv iota.
  rewrite scanstring_encode by assumption; cbn [rev app].
  cbn [skip_ws]; change (is_ws 58%N) with false; cbv iota.
  change (is_char ":" 58%N) with true; cbv iota.
  assert (Hskip : skip_ws (32%N :: encode_basestring_ascii v ++ c3 :: r4)
                  = encode_basestring_ascii v ++ c3 :: r4) by reflexivity.
  rewrite Hskip, scan_once_string by assumption.
  cbn [skip_ws]; now rewrite Hc3.
Qed.

Lemma dumps_members_head (kv : str * str) (d : list (str * str)) (t : str) :
  exists rest, join (py ", ") (map dumps_member (kv :: d)) ++ t = dquote :: rest.
Proof.
  destruct d as [|kv2 d]; cbn [map join]; unfold dumps_member at 1;
    unfold encode_basestring_ascii at 1; cbn [app]; eexists; reflexivity.
Qed.

(** The members written by [json_dumps], up to the closing brace. *)
Lemma scan_members_dumps (d : list (str * str)) :
  d <> [] ->
  forallb (fun kv => is_text (fst kv) && is_text (snd kv)) d = true ->
  forall m fuel depth acc tail,
    List.length d < fuel ->
    scan_members m fuel depth
      (join (py ", ") (map dumps_member d) ++ py "}" ++ tail) acc
    = Scanned (JObj (dict_of_items d acc)) tail.
Proof.
  induction d as [|[k v] d IH]; [congruence|];
    intros _ Ht m fuel depth acc tail Hf.
  cbn [forallb fst snd] in Ht.
  apply andb_true_iff in Ht as [Hkv Ht].
  apply andb_true_iff in Hkv as [Hk Hv].
  destruct fuel as [|[|fuel]]; simpl List.length in Hf; try lia.
  destruct d as [|kv2 d].
  - cbn [map join]; change (py "}" ++ tail) with (125%N :: tail).
    now rewrite scan_members_member by (assumption || reflexivity).
  - change (join (py ", ") (map dumps_member ((k, v) :: kv2 :: d)))
      with (dumps_member (k, v)
            ++ py ", " ++ join (py ", ") (map dumps_member (kv2 :: d))).
    rewrite <- !app_assoc.
    change (py ", " ++ join (py ", ") (map dumps_member (kv2 :: d))
            ++ py "}" ++ tail)
      with (44%N :: 32%N :: join (py ", ") (map dumps_member (kv2 :: d))
            ++ py "}" ++ tail).
    rewrite scan_members_member by (assumption || reflexivity).
    change (is_char "}" 44%N) with false; change (is_char "," 44%N) with true.
    cbv iota.
    destruct (dumps_members_head kv2 d (py "}" ++ tail)) as [rest E].
    rewrite E; change (skip_ws (32%N :: dquote :: rest)) with (dquote :: rest).
    rewrite <- E.
    apply IH; [discriminate | exact Ht | simpl List.length in *; lia].
Qed.

Lemma scan_once_any_fuel (m depth f1 f2 : nat) (s : str) :
  scan_once m f1 depth s <> OutOfFuel -> scan_once m f2 depth s <> OutOfFuel ->
  scan_once m f1 depth s = scan_once m f2 depth s.
Proof.
  intros H1 H2; destruct (Nat.le_ge_cases f1 f2) as [L|L].
  - replace f2 with (f1 + (f2 - f1)) by lia.
    symmetry; now apply (proj1 (scan_fuel_monotone m f1)).
  - replace f1 with (f2 + (f1 - f2)) by lia.
    now apply (proj1 (scan_fuel_monotone m f2)).
Qed.

(** Decoding what [json_dumps] wrote for a dictionary of texts gives the
    dictionary back, whatever the limit on digits, where the scanner has
    room for one object. *)
Lemma decode_with_json_dumps (m depth : nat) (d : list (str * str)) :
  forallb (fun kv => is_text (fst kv) && is_text (snd kv)) d = true ->
  decode_with m (S depth) (json_dumps d)
  = Scanned (JObj (dict_of_items d [])) [].
Proof.
  intros Ht; destruct d as [|kv d]; [reflexivity|].
  unfold decode_with, json_dumps.
  destruct (dumps_members_head kv d (py "}")) as [rest E].
  set (text := py "{" ++ join (py ", ") (map dumps_member (kv :: d)) ++ py "}").
  assert (Htext : text = 123%N :: dquote :: rest)
    by (unfold text; now rewrite E).
  assert (Hscan : scan_once m (S (S (List.length (kv :: d)))) (S depth) text
                  = Scanned (JObj (dict_of_items (kv :: d) [])) []).
  { rewrite Htext; cbn [scan_once].
    change (is_quote 123%N) with false; change (is_char "{" 123%N) with true.
    cbv iota; change (skip_ws (dquote :: rest)) with (dquote :: rest).
    cbv iota; change (is_char "}" dquote) with false; cbv iota.
    rewrite <- E.
    rewrite <- (app_nil_r (py "}")).
    apply scan_members_dumps; [discriminate | exact Ht | lia]. }
  assert (Hbom : startswith text [0xFEFF%N] = false)
    by (rewrite Htext; reflexivity).
  assert (Hws : skip_ws text = text) by (rewrite Htext; reflexivity).
  rewrite Hbom, Hws.
  rewrite (@scan_once_any_fuel m (S depth) (fuel_for text)
             (S (S (List.length (kv :: d))))).
  - now rewrite Hscan.
  - apply (proj1 (scan_has_fuel m (fuel_for text))); unfold fuel_for; lia.
  - rewrite Hscan; discriminate.
Qed.

Lemma fuel_for_S (s : str) : fuel_for s = S (2 * List.length s + 1).
Proof. unfold fuel_for; lia. Qed.

Lemma max_nesting_S (i : Interpreter) :
  exists depth, Pos.to_nat (max_nesting i) = S depth.
Proof.
  destruct (Pos2Nat.is_succ (max_nesting i)) as [depth E]; now exists depth.
Qed.


Lemma decode_in_json_dumps (i : Interpreter) (d : list (str * str)) :
  forallb (fun kv => is_text (fst kv) && is_text (snd kv)) d = true ->
  decode_in i (json_dumps d) = Scanned (JObj (dict_of_items d [])) [].
Proof.
  intros Ht; unfold decode_in.
  destruct (max_nesting_S i) as [depth ->].
  now apply decode_with_json_dumps.
Qed.

End EncoderFacts.

(* ------------------------------------------------------------------ *)
(** ** Regular expressions *)

Section RegexFacts.

Import Regex.

Lemma fullmatch_Void (s : str) : fullmatch Void s = false.
Proof. induction s; simpl; auto. Qed.

Lemma fullmatch_Alt (r1 r2 : regex) (s : str) :
  fullmatch (Alt r1 r2) s = fullmatch r1 s || fullmatch r2 s.
Proof. revert r1 r2; induction s as [|c s IH]; intros; simpl; auto. Qed.

(** Concatenated texts match concatenated expressions. *)
Lemma fullmatch_Cat (r1 r2 : regex) (s1 s2 : str) :
  fullmatch r1 s1 = true -> fullmatch r2 s2 = true ->
  fullmatch (Cat r1 r2) (s1 ++ s2) = true.
Proof.
  revert r1; induction s1 as [|c s1 IH]; intros r1 H1 H2.
  - simpl in H1; destruct s2 as [|c s2]; simpl.
    + now rewrite H1.
    + rewrite H1, fullmatch_Alt; simpl in H2; rewrite H2; apply orb_true_r.
  - simpl in *; destruct (nullable r1).
    + rewrite fullmatch_Alt, (IH _ H1 H2); reflexivity.
    + apply (IH _ H1 H2).
Qed.

Lemma fullmatch_Class (p : char -> bool) (c : char) :
  p c = true -> fullmatch (Class p) [c] = true.
Proof. intros H; simpl; now rewrite H. Qed.

Lemma fullmatch_Star_Class (p : char -> bool) (s : str) :
  forallb p s = true -> fullmatch (Star (Class p)) s = true.
Proof.
  induction s as [|c s IH]; intros H; [reflexivity|].
  simpl in H; apply andb_true_iff in H as [Hc Hs].
  simpl; rewrite Hc.
  apply (fullmatch_Cat Eps (Star (Class p)) [] s); auto.
Qed.

Lemma fullmatch_Plus_Class (p : char -> bool) (s : str) :
  s <> [] -> forallb p s = true -> fullmatch (Plus (Class p)) s = true.
Proof.
  destruct s as [|c s]; [congruence|]; intros _ H.
  simpl in H; apply andb_true_iff in H as [Hc Hs].
  apply (fullmatch_Cat (Class p) (Star (Class p)) [c] s).
  - now apply fullmatch_Class.
  - now apply fullmatch_Star_Class.
Qed.

Lemma fullmatch_Rep_Class (p : char -> bool) (s : str) :
  forallb p s = true -> fullmatch (Rep (List.length s) (Class p)) s = true.
Proof.
  induction s as [|c s IH]; intros H; [reflexivity|].
  simpl in H; apply andb_true_iff in H as [Hc Hs].
  apply (fullmatch_Cat (Class p) (Rep (List.length s) (Class p)) [c] s).
  - now apply fullmatch_Class.
  - now apply IH.
Qed.

Lemma fullmatch_Lit (s : str) : fullmatch (Lit s) s = true.
Proof.
  induction s as [|c s IH]; [reflexivity|].
  apply (fullmatch_Cat (Class (N.eqb c)) (Lit s) [c] s); [|exact IH].
  apply fullmatch_Class, N.eqb_refl.
Qed.

(** A key built from a clock at or after the epoch and a six-character
    suffix of letters, digits and dashes has the documented shape. *)
Lemma object_key_shape (timestamp : Z) (suffix ext : str) :
  (0 <= timestamp)%Z ->
  List.length suffix = 6 ->
  forallb is_alnum_dash suffix = true ->
  fullmatch (key_pattern ext) (object_key timestamp suffix ext) = true.
Proof.
  intros Ht Hlen Hcls; unfold key_pattern, object_key.
  destruct (str_of_int_nonneg Ht) as [Hne Hdig].
  apply fullmatch_Cat; [apply fullmatch_Lit|].
  apply fullmatch_Cat; [now apply fullmatch_Plus_Class|].
  apply fullmatch_Cat; [apply fullmatch_Lit|].
  apply fullmatch_Cat; [rewrite <- Hlen; now apply fullmatch_Rep_Class|].
  apply fullmatch_Cat; apply fullmatch_Lit.
Qed.

End RegexFacts.

(* ------------------------------------------------------------------ *)
(** ** The handler, case by case *)

Section HandlerFacts.

Variable i : Interpreter.
Variable g : Globals.
Variable w : World.

Lemma last_item_split (s : str) (sep : char) :
  last_item (split s sep) = Return (last (split s sep) []).
Proof.
  assert (Hne : split s sep <> []).
  { destruct s as [|c s]; simpl; [discriminate|].
    destruct (N.eqb c sep); [discriminate|].
    destruct (split s sep); discriminate. }
  unfold last_item.
  destruct (exists_last Hne) as (front & x & E); rewrite E.
  now rewrite rev_unit, last_last.
Qed.

Lemma allowed_startswith (content_type : str) :
  str_in content_type allowed_types = true ->
  startswith content_type (py "image/") = true.
Proof.
  intros H; apply str_in_In in H; simpl in H.
  destruct H as [<-|[<-|[<-|[<-|[]]]]]; reflexivity.
Qed.

(** [json.loads] on a string returns the value of the text, refuses the
    text, or stops at one of the two limits; it never runs out of fuel. *)
Lemma json_loads_outcomes (doc : str) :
  (exists v, decode_in i doc = Scanned v []
             /\ json_loads i (JStr doc) = Return v)
  \/ (decode_in i doc = Malformed
      /\ json_loads i (JStr doc)
         = Raise (raised_by_scanner i doc (JSONDecodeError doc)))
  \/ (decode_in i doc = TooDeep
      /\ json_loads i (JStr doc) = Raise RecursionError)
  \/ (exists text,
        decode_in i doc = TooManyDigits text
        /\ json_loads i (JStr doc)
           = Raise (raised_by_scanner i doc (ValueError text))).
Proof.
  unfold json_loads; pose proof (decode_has_fuel i doc) as Hfuel.
  destruct (decode_in i doc) as [v rest| | |text|] eqn:E.
  - left; exists v; split; [|reflexivity].
    unfold decode_in, decode_with in E.
    destruct (startswith doc [0xFEFF%N]); [discriminate|].
    destruct (scan_once _ _ _ _) as [v' r'| | | |]; try discriminate.
    destruct (skip_ws r'); [|discriminate]. now injection E as <- <-.
  - right; left; now split.
  - right; right; left; now split.
  - right; right; right; now exists text.
  - congruence.
Qed.

(** A text that is not a document is not decoded, whatever the limits. *)
Lemma json_loads_unparsable (doc : str) :
  decode doc = Malformed -> exists e, json_loads i (JStr doc) = Raise e.
Proof.
  intros Hbad; pose proof (decode_in_limited i doc) as Hlim.
  destruct (json_loads_outcomes doc)
    as [(v & E & _)|[(_ & H)|[(_ & H)|(text & _ & H)]]];
    try (eexists; exact H).
  rewrite E in Hlim; cbn [limited] in Hlim; congruence.
Qed.

(** The text of an empty object is decoded in every interpreter. *)
Lemma json_loads_empty_object :
  json_loads i (JStr (py "{}")) = Return (JObj []).
Proof.
  unfold json_loads, decode_in.
  destruct (max_nesting_S i) as [depth ->]; reflexivity.
Qed.

(** The [try] body raises what [event_body] raises. *)
Lemma try_body_no_body (event context : json) (log : list io) (e : exn) :
  event_body i event = Raise e ->
  try_body i g event context w log = (Raise e, log).
Proof. intros H; unfold try_body, bind, lift; now rewrite H. Qed.

(** A body that is not an object has no [get]. *)
Lemma try_body_not_dict (event context body : json) (log : list io) :
  event_body i event = Return body ->
  (forall d, body <> JObj d) ->
  try_body i g event context w log
  = (Raise (AttributeError body (py "get")), log).
Proof.
  intros H Hd; unfold try_body, bind, lift; rewrite H.
  destruct body; try reflexivity. now destruct (Hd members).
Qed.

(** A content type that is not a string has no [startswith]. *)
Lemma try_body_not_str (event context : json) (log : list io)
  (d : list (str * json)) :
  event_body i event = Return (JObj d) ->
  is_str (content_type_of d) = false ->
  try_body i g event context w log
  = (Raise (AttributeError (content_type_of d) (py "startswith")), log).
Proof.
  intros H Hs; unfold try_body, bind, lift; rewrite H; unfold py_get.
  fold (content_type_of d).
  destruct (content_type_of d); try reflexivity; discriminate.
Qed.

Lemma try_body_invalid (event context : json) (log : list io)
  (d : list (str * json)) (content_type : str) :
  event_body i event = Return (JObj d) ->
  content_type_of d = JStr content_type ->
  startswith content_type (py "image/") = false ->
  try_body i g event context w log
  = (Return invalid_content_type_response, log).
Proof.
  intros H Hc Hs; unfold try_body, bind, lift; rewrite H; unfold py_get.
  fold (content_type_of d); rewrite Hc, Hs; reflexivity.
Qed.

Lemma try_body_unsupported (event context : json) (log : list io)
  (d : list (str * json)) (content_type : str) :
  event_body i event = Return (JObj d) ->
  content_type_of d = JStr content_type ->
  startswith content_type (py "image/") = true ->
  str_in content_type allowed_types = false ->
  try_body i g event context w log
  = (Return (error_response 400
               (unsupported_message content_type (set_iter w allowed_types))),
     log).
Proof.
  intros H Hc Hs Ha; unfold try_body, bind, lift; rewrite H; unfold py_get.
  fold (content_type_of d); rewrite Hc, Hs, Ha; reflexivity.
Qed.

(** A valid request: one signing call, whose answer decides the result. *)
Lemma try_body_valid (event context : json) (log : list io)
  (d : list (str * json)) (content_type : str) :
  event_body i event = Return (JObj d) ->
  content_type_of d = JStr content_type ->
  str_in content_type allowed_types = true ->
  let key := derived_key w content_type in
  let call := put_object_call g key content_type in
  try_body i g event context w log
  = (match generate_presigned_url w (s3_client g) call with
     | Return url => Return (success_response url key)
     | Raise e => Raise e
     end,
     log ++ [IoPresign (s3_client g) call]).
Proof.
  intros H Hc Ha key call; unfold try_body, bind, lift; rewrite H.
  unfold py_get; fold (content_type_of d).
  rewrite Hc, (allowed_startswith _ Ha), Ha; cbn [negb].
  unfold time_time, uuid_uuid4, client_generate_presigned_url, ret.
  rewrite last_item_split.
  fold (ext_of content_type); fold (derived_key w content_type).
  fold key; fold call.
  destruct (generate_presigned_url w (s3_client g) call); reflexivity.
Qed.

(** What [lambda_handler] makes of the result of the [try] body. *)
Lemma lambda_handler_return (event context : json) (log log' : list io)
  (r : response) :
  try_body i g event context w log = (Return r, log') ->
  lambda_handler i g event context w log = (Return r, log').
Proof. intros H; unfold lambda_handler, try_except; now rewrite H. Qed.

Lemma lambda_handler_raise (event context : json) (log log' : list io)
  (e : exn) :
  try_body i g event context w log = (Raise e, log') ->
  lambda_handler i g event context w log
  = (Return internal_error_response,
     log' ++ [IoPrint (py "Error generating presigned URL: ") e]).
Proof. intros H; unfold lambda_handler, try_except; now rewrite H. Qed.

(** Whatever the [try] body returns carries the two CORS headers. *)
Lemma try_body_headers (event context : json) (log log' : list io)
  (r : response) :
  try_body i g event context w log = (Return r, log') ->
  headers r = cors_headers.
Proof.
  unfold try_body, bind, lift, ret, raise, iterate_set, time_time, uuid_uuid4,
    client_generate_presigned_url.
  destruct (event_body i event) as [body|e]; [|discriminate].
  destruct (py_get body (py "contentType") (JStr [])) as [ct|e];
    [|discriminate].
  destruct (py_get body (py "fileName") (JStr [])) as [fn|e]; [|discriminate].
  destruct ct; try discriminate.
  destruct (negb (startswith s (py "image/"))); [now intros [= <- _]|].
  destruct (negb (str_in s allowed_types)); [now intros [= <- _]|].
  destruct (last_item (split s 47%N)) as [ext|e]; [|discriminate].
  match goal with
  | |- context [generate_presigned_url w ?c ?k] =>
      destruct (generate_presigned_url w c k) as [url|e]
  end; [now intros [= <- _] | discriminate].
Qed.

End HandlerFacts.

(* ================================================================== *)
(** * Properties of the specification *)

Section Properties.

Variable i : Interpreter.
Variable g : Globals.
Variable w : World.

(** The two fixed error bodies, as the text on the wire. *)
Lemma invalid_content_type_body :
  body invalid_content_type_response
  = q "{'error': 'Invalid contentType. Must start with \'image/\'.'}".
Proof. reflexivity. Qed.

Lemma internal_error_body :
  body internal_error_response
  = q "{'error': 'Internal server error. Failed to generate upload URL.'}".
Proof. reflexivity. Qed.

Lemma event_body_missing (event : json) :
  body_missing event -> event_body i event = Return (JObj []).
Proof.
  intros (entries & -> & Hnone); unfold event_body, py_get.
  rewrite Hnone; cbn [outcome_bind]; apply json_loads_empty_object.
Qed.

Lemma event_body_unparsable (event : json) :
  body_unparsable event -> exists e, event_body i event = Raise e.
Proof.
  intros (entries & doc & -> & Hsome & Hbad).
  unfold event_body, py_get; rewrite Hsome; cbn [outcome_bind].
  now apply json_loads_unparsable.
Qed.

(** C1, as amended.  An event without a [body] entry is handled exactly
    as one whose body is the text of an empty object, and the answer is
    the 400 rejection of the content type.  An event whose [body] is a
    string that is not a JSON document is answered with the generic 500
    response: the decoding error is caught by the [except] clause. *)
Theorem missing_body_is_empty_object_unparsable_is_500 (event : json) :
  (body_missing event ->
     invoke i g w event = invoke i g w (event_with_body (py "{}"))
     /\ invoke i g w event = (Return invalid_content_type_response, []))
  /\ (body_unparsable event ->
     fst (invoke i g w event) = Return internal_error_response).
Proof.
  split.
  - intros Hm; apply event_body_missing in Hm.
    assert (R : forall ev, event_body i ev = Return (JObj []) ->
                invoke i g w ev = (Return invalid_content_type_response, [])).
    { intros ev Hev; unfold invoke; apply lambda_handler_return.
      now apply (try_body_invalid i g w ev JNull []
                   (d := []) (content_type := [])). }
    rewrite (R event Hm); split; [|reflexivity].
    symmetry; apply R; apply json_loads_empty_object.
  - intros Hu; apply event_body_unparsable in Hu as [e Hdoc].
    unfold invoke.
    now rewrite (lambda_handler_raise i g w event JNull []
                   (try_body_no_body i g w event JNull [] Hdoc)).
Qed.







(** C5.  Every invocation returns a response, whatever the event, the
    context, the backend and the effects so far, and the response carries
    [Access-Control-Allow-Origin: *] and
    [Access-Control-Allow-Headers: Content-Type]. *)
Theorem every_response_has_cors_headers (event context : json)
  (log : list io) :
  exists r log',
    lambda_handler i g event context w log = (Return r, log')
    /\ dict_get (headers r) (py "Access-Control-Allow-Origin") = Some (py "*")
    /\ dict_get (headers r) (py "Access-Control-Allow-Headers")
       = Some (py "Content-Type").
Proof.
  destruct (try_body i g event context w log) as [[r|e] log'] eqn:Hrun.
  - exists r, log'; split; [now apply lambda_handler_return|].
    rewrite (try_body_headers i g w event context log Hrun); now split.
  - exists internal_error_response,
      (log' ++ [IoPrint (py "Error generating presigned URL: ") e]).
    split; [now apply lambda_handler_raise | now split].
Qed.

(** C6.  The handler never raises: every invocation returns a response.
    Whenever a statement of the [try] body raises, and in particular when
    the signing call of a valid request does, the response is the 500
    response with the fixed generic body, the same for every exception
    and so independent of its text; the exception only reaches the log. *)
Theorem failures_become_generic_500 (event context : json) (log : list io) :
  exists r log',
    lambda_handler i g event context w log = (Return r, log')
    /\ (forall e l,
          try_body i g event context w log = (Raise e, l) ->
          r = internal_error_response
          /\ log' = l ++ [IoPrint (py "Error generating presigned URL: ") e])
    /\ (forall d content_type e,
          event_body i event = Return (JObj d) ->
          content_type_of d = JStr content_type ->
          str_in content_type allowed_types = true ->
          generate_presigned_url w (s3_client g)
            (put_object_call g (derived_key w content_type) content_type)
          = Raise e ->
          r = internal_error_response)
    /\ statusCode internal_error_response = 500%Z
    /\ body internal_error_response
       = q "{'error': 'Internal server error. Failed to generate upload URL.'}".
Proof.
  destruct (try_body i g event context w log) as [[r|e] log'] eqn:Hrun.
  - exists r, log'; split; [now apply lambda_handler_return|].
    split; [intros e l [=]|]. split; [|now split].
    intros d ct e Hb Hc Ha Hsign.
    pose proof (try_body_valid i g w event context log Hb Hc Ha) as Hv.
    cbv zeta in Hv; rewrite Hsign, Hrun in Hv; discriminate.
  - exists internal_error_response,
      (log' ++ [IoPrint (py "Error generating presigned URL: ") e]).
    split; [now apply lambda_handler_raise|].
    split; [now intros e' l [= <- <-]|].
    split; [reflexivity | now split].
Qed.

(** C7.  For a request that passes validation (its body is decoded to
    an object with an allowed content type) the handler makes exactly one
    signing call, for [put_object] by [PUT], with the bucket of the
    configuration, the derived key, the content type of the request and
    the configured expiry; the bucket is the [BUCKET_NAME] variable and
    the expiry is 120 when [SIGNED_URL_EXPIRE] is not set (and the
    integer value of that variable when it is). *)
Theorem signing_call_arguments
  (boto3_client : str -> str -> outcome S3Client)
  (int_of_str : str -> option Z) (environ : list (str * str))
  (event : json) (d : list (str * json)) (content_type : str) :
  module_init boto3_client int_of_str environ = Return g ->
  event_body i event = Return (JObj d) ->
  content_type_of d = JStr content_type ->
  str_in content_type allowed_types = true ->
  presign_calls (snd (invoke i g w event))
  = [(s3_client g,
      {| ClientMethod := py "put_object";
         Bucket := BUCKET_NAME g;
         Key := derived_key w content_type;
         ContentType := content_type;
         ExpiresIn := EXPIRE_SECONDS g;
         HttpMethod := py "PUT" |})]
  /\ dict_get environ (py "BUCKET_NAME") = Some (BUCKET_NAME g)
  /\ (dict_get environ (py "SIGNED_URL_EXPIRE") = None ->
      EXPIRE_SECONDS g = 120%Z)
  /\ (forall text,
        dict_get environ (py "SIGNED_URL_EXPIRE") = Some text ->
        int_of_str text = Some (EXPIRE_SECONDS g)).
Proof.
  intros Hinit Hb Hc Ha; split.
  - pose proof (try_body_valid i g w event JNull [] Hb Hc Ha) as Hv.
    cbv zeta in Hv; unfold invoke.
    destruct (generate_presigned_url w (s3_client g)
                (put_object_call g (derived_key w content_type) content_type))
      as [url|e].
    + now rewrite (lambda_handler_return i g w event JNull [] Hv).
    + now rewrite (lambda_handler_raise i g w event JNull [] Hv).
  - unfold module_init, environ_item, outcome_bind in Hinit.
    destruct (dict_get environ (py "REGION")) as [region|]; [|discriminate].
    destruct (boto3_client (py "s3") region); [|discriminate].
    destruct (dict_get environ (py "BUCKET_NAME")); [|discriminate].
    destruct (dict_get environ (py "SIGNED_URL_EXPIRE")) as [text|].
    + destruct (int_of_str text) as [n|] eqn:Hn; [|discriminate].
      injection Hinit as <-; simpl.
      split; [reflexivity|]. split; [discriminate|].
      now intros text' [= <-].
    + injection Hinit as <-; simpl.
      split; [reflexivity|]. split; [reflexivity | discriminate].
Qed.



(** C10.  A body that decodes to an object whose [contentType] is present
    and is not a string is answered with the generic 500 response, not
    with a 400 rejection. *)
Theorem non_string_content_type_is_internal_error (event : json)
  (d : list (str * json)) (v : json) :
  event_body i event = Return (JObj d) ->
  dict_get d (py "contentType") = Some v ->
  is_str v = false ->
  fst (invoke i g w event) = Return internal_error_response
  /\ statusCode internal_error_response = 500%Z.
Proof.
  intros Hb Hv Hs; split; [|reflexivity].
  assert (Hc : is_str (content_type_of d) = false)
    by (unfold content_type_of; now rewrite Hv).
  unfold invoke.
  now rewrite (lambda_handler_raise i g w event JNull []
                 (try_body_not_str i g w event JNull [] Hb Hc)).
Qed.

End Properties.

(* ------------------------------------------------------------------ *)
(** ** The properties at concrete requests *)

(** C1 as stated fails: a body that is not JSON is answered 500, while
    the body of an empty object is answered 400. *)
Lemma unparsable_body_is_not_handled_as_empty_object :
  body_unparsable garbage_event
  /\ fst (invoke demo_python demo_globals demo_world garbage_event)
     <> fst (invoke demo_python demo_globals demo_world
               (event_with_body (py "{}")))
  /\ fst (invoke demo_python demo_globals demo_world garbage_event)
     = Return internal_error_response
  /\ fst (invoke demo_python demo_globals demo_world garbage_event)
     <> Return invalid_content_type_response.
Proof.
  split; [|split; [|split]].
  - exists [(py "body", JStr (py "not json"))], (py "not json").
    repeat split; reflexivity.
  - vm_compute; discriminate.
  - vm_compute; reflexivity.
  - vm_compute; discriminate.
Qed.

Lemma missing_body_is_empty_object_unparsable_is_500_witness :
  (invoke demo_python demo_globals demo_world (JObj [])
   = invoke demo_python demo_globals demo_world (event_with_body (py "{}"))
   /\ invoke demo_python demo_globals demo_world (JObj [])
      = (Return invalid_content_type_response, []))
  /\ fst (invoke demo_python demo_globals demo_world garbage_event)
     = Return internal_error_response.
Proof.
  split.
  - apply (proj1 (missing_body_is_empty_object_unparsable_is_500
                    demo_python demo_globals demo_world (JObj []))).
    exists []; split; reflexivity.
  - apply (proj2 (missing_body_is_empty_object_unparsable_is_500
                    demo_python demo_globals demo_world garbage_event)).
    exists [(py "body", JStr (py "not json"))], (py "not json").
    repeat split; reflexivity.
Defined.




Lemma failures_become_generic_500_witness :
  fst (invoke demo_python demo_globals failing_world png_event)
  = Return internal_error_response
  /\ contains (body internal_error_response)
       (py "Unable to locate credentials") = false.
Proof.
  split; [|reflexivity].
  destruct (failures_become_generic_500 demo_python demo_globals failing_world
              png_event JNull [])
    as (r & log' & Hrun & _ & Hbackend & _).
  unfold invoke; rewrite Hrun; simpl; f_equal.
  eapply Hbackend; vm_compute; reflexivity.
Defined.

Lemma signing_call_arguments_witness :
  presign_calls (snd (invoke demo_python demo_globals demo_world png_event))
  = [(s3_client demo_globals,
      {| ClientMethod := py "put_object";
         Bucket := py "uploads-bucket";
         Key := py "uploads/1700000000-012345.png";
         ContentType := py "image/png";
         ExpiresIn := 120;
         HttpMethod := py "PUT" |})]
  /\ EXPIRE_SECONDS demo_globals = 120%Z.
Proof.
  destruct (@signing_call_arguments demo_python demo_globals demo_world
              demo_boto3_client int_of_decimal demo_environ png_event
              [(py "fileName", JStr (py "cat.png"));
               (py "contentType", JStr (py "image/png"))]
              (py "image/png"))
    as (Hcalls & _ & Hexpire & _); try reflexivity.
  split; [exact Hcalls | now apply Hexpire].
Defined.



Lemma non_string_content_type_is_internal_error_witness :
  fst (invoke demo_python demo_globals demo_world number_event)
  = Return internal_error_response
  /\ statusCode internal_error_response = 500%Z.
Proof.
  apply (@non_string_content_type_is_internal_error demo_python demo_globals
           demo_world number_event [(py "contentType", JInt 5)] (JInt 5));
    reflexivity.
Defined.

(* ------------------------------------------------------------------ *)
(** ** Worked examples *)

(** The answer to the PNG request of the examples, as text. *)
Example png_response_text :
  fst (invoke demo_python demo_globals demo_world png_event)
  = Return
      {| statusCode := 200;
         headers := cors_headers;
         body := q ("{'url': 'https://uploads-bucket.s3.eu-west-1.amazonaws.com/"
                    ++ "uploads/1700000000-012345.png?X-Amz-Expires=120', "
                    ++ "'key': 'uploads/1700000000-012345.png'}") |}.
Proof. vm_compute; reflexivity. Qed.

(** That text decodes to the two fields. *)
Example png_response_decodes :
  decode (q ("{'url': 'https://uploads-bucket.s3.eu-west-1.amazonaws.com/"
             ++ "uploads/1700000000-012345.png?X-Amz-Expires=120', "
             ++ "'key': 'uploads/1700000000-012345.png'}"))
  = Scanned
      (JObj [(py "url",
              JStr (py ("https://uploads-bucket.s3.eu-west-1.amazonaws.com/"
                        ++ "uploads/1700000000-012345.png?X-Amz-Expires=120")));
             (py "key", JStr (py "uploads/1700000000-012345.png"))])
      [].
Proof. vm_compute; reflexivity. Qed.

(** The rejected type and the allowed list in the message, here in the
    order in which the example world iterates the set. *)
Example bmp_response_text :
  fst (invoke demo_python demo_globals demo_world bmp_event)
  = Return
      (error_response 400
         (py ("Unsupported image type: image/bmp. Allowed: "
              ++ "image/webp, image/gif, image/png, image/jpeg"))).
Proof. vm_compute; reflexivity. Qed.

(** The UUID of the example world and the suffix taken from it. *)
Example demo_uuid :
  Uuid.uuid_str (Uuid.uuid4_int (urandom demo_world))
  = py "01234567-89ab-4def-8123-456789abcdef"
  /\ random_suffix_of (Uuid.uuid4_int (urandom demo_world)) = py "012345".
Proof. split; vm_compute; reflexivity. Qed.

(** Two invocations in the same second whose random bytes differ in
    their leading digits derive different keys. *)
Example same_second_distinct_keys :
  clock demo_world = clock second_world
  /\ derived_key demo_world (py "image/png")
     = py "uploads/1700000000-012345.png"
  /\ derived_key second_world (py "image/png")
     = py "uploads/1700000000-fedcba.png".
Proof. repeat split; vm_compute; reflexivity. Qed.

(** A [body] that is [null] is not a missing body: [json.loads(None)]
    raises [TypeError] and the answer is the generic 500. *)
Example null_body_is_internal_error :
  invoke demo_python demo_globals demo_world (JObj [(py "body", JNull)])
  = (Return internal_error_response,
     [IoPrint (py "Error generating presigned URL: ") (TypeError JNull)]).
Proof. reflexivity. Qed.

(** A body that is JSON but not an object has no [get]. *)
Example array_body_is_internal_error :
  fst (invoke demo_python demo_globals demo_world (event_with_body (py "[]")))
  = Return internal_error_response.
Proof. vm_compute; reflexivity. Qed.

(** A body nested deeper than the interpreter reads is not decoded: the
    request for a PNG is answered with the generic 500 and the
    [RecursionError] is printed.  With one array less it is signed like
    any other request for a PNG. *)
Example deep_body_is_internal_error :
  invoke demo_python demo_globals demo_world (nested_event 990)
  = (Return internal_error_response, [IoPrint error_prefix RecursionError])
  /\ invoke demo_python demo_globals demo_world (nested_event 989)
     = invoke demo_python demo_globals demo_world png_event.
Proof. split; vm_compute; reflexivity. Qed.

(** So is a body with an integer of more digits than [int] converts: the
    [ValueError] is printed.  With one digit less it is signed. *)
Example long_number_is_internal_error :
  invoke demo_python demo_globals demo_world (long_number_event 4301)
  = (Return internal_error_response,
     [IoPrint error_prefix (ValueError (repeat 49%N 4301))])
  /\ invoke demo_python demo_globals demo_world (long_number_event 4300)
     = invoke demo_python demo_globals demo_world png_event.
Proof. split; vm_compute; reflexivity. Qed.

(** An interpreter close to its recursion limit still reads a flat
    object; a text that it refuses it answers with [RecursionError]. *)
Example refusal_near_the_limit :
  invoke cramped_python demo_globals demo_world png_event
  = invoke demo_python demo_globals demo_world png_event
  /\ invoke cramped_python demo_globals demo_world garbage_event
     = (Return internal_error_response,
        [IoPrint error_prefix RecursionError])
  /\ invoke demo_python demo_globals demo_world garbage_event
     = (Return internal_error_response,
        [IoPrint error_prefix (JSONDecodeError (py "not json"))]).
Proof. repeat split; vm_compute; reflexivity. Qed.

(** Before the epoch the text of the clock starts with a minus sign and
    the key no longer has the documented shape. *)
Example key_shape_needs_epoch :
  Regex.fullmatch (Regex.key_pattern (py "png"))
    (object_key (-5) (py "012345") (py "png")) = false.
Proof. vm_compute; reflexivity. Qed.

(** Module initialisation: the default expiry, a configured one, and a
    missing bucket name. *)
Example module_init_default :
  module_init demo_boto3_client int_of_decimal demo_environ
  = Return demo_globals.
Proof. vm_compute; reflexivity. Qed.

Example module_init_configured :
  module_init demo_boto3_client int_of_decimal
    ((py "SIGNED_URL_EXPIRE", py "300") :: demo_environ)
  = Return {| s3_client := {| region_name := py "eu-west-1" |};
              BUCKET_NAME := py "uploads-bucket";
              EXPIRE_SECONDS := 300 |}.
Proof. vm_compute; reflexivity. Qed.

Example module_init_without_bucket :
  module_init demo_boto3_client int_of_decimal [(py "REGION", py "eu-west-1")]
  = Raise (KeyError (py "BUCKET_NAME")).
Proof. vm_compute; reflexivity. Qed.

(** A region that the client refuses is the error, also when the bucket
    name is missing. *)
Example module_init_bad_region :
  module_init demo_boto3_client int_of_decimal [(py "REGION", py "eu west 1")]
  = Raise (BackendError (py "Provided region_name is not valid")).
Proof. vm_compute; reflexivity. Qed.

(* ================================================================== *)
(** * Further properties of the handler *)

(* ------------------------------------------------------------------ *)
(** ** The invocation, case by case *)

Section HandlerCases.

Variable i : Interpreter.
Variable g : Globals.
Variable w : World.

(** The six ways an invocation can go, by what lines 23, 24, 28 and 42
    find. *)
Lemma request_cases (event : json) :
  (exists e, event_body i event = Raise e)
  \/ (exists v, event_body i event = Return v /\ forall d, v <> JObj d)
  \/ (exists d, event_body i event = Return (JObj d)
               /\ is_str (content_type_of d) = false)
  \/ (exists d ct, event_body i event = Return (JObj d)
                  /\ content_type_of d = JStr ct
                  /\ startswith ct (py "image/") = false)
  \/ (exists d ct, event_body i event = Return (JObj d)
                  /\ content_type_of d = JStr ct
                  /\ startswith ct (py "image/") = true
                  /\ str_in ct allowed_types = false)
  \/ (exists d ct, event_body i event = Return (JObj d)
                  /\ content_type_of d = JStr ct
                  /\ str_in ct allowed_types = true).
Proof.
  destruct (event_body i event) as [v|e] eqn:H; [|left; now exists e].
  right.
  destruct v as [| | | | |items|d];
    try (left; eexists; split; [reflexivity | intros d; discriminate]).
  right.
  destruct (content_type_of d) as [| | | |ct| |] eqn:Hc;
    try (left; exists d; split; [reflexivity | now rewrite Hc]).
  right.
  destruct (startswith ct (py "image/")) eqn:Hp;
    [|left; now exists d, ct].
  right.
  destruct (str_in ct allowed_types) eqn:Ha.
  - right; now exists d, ct.
  - left; now exists d, ct.
Qed.

(** What the whole invocation gives in each case. *)
Lemma invoke_no_body (event : json) (e : exn) :
  event_body i event = Raise e ->
  invoke i g w event
  = (Return internal_error_response, [IoPrint error_prefix e]).
Proof.
  intros H; unfold invoke.
  now rewrite (lambda_handler_raise i g w event JNull []
                 (try_body_no_body i g w event JNull [] H)).
Qed.

Lemma invoke_not_dict (event v : json) :
  event_body i event = Return v -> (forall d, v <> JObj d) ->
  invoke i g w event
  = (Return internal_error_response,
     [IoPrint error_prefix (AttributeError v (py "get"))]).
Proof.
  intros H Hv; unfold invoke.
  now rewrite (lambda_handler_raise i g w event JNull []
                 (try_body_not_dict i g w event JNull [] H Hv)).
Qed.

Lemma invoke_not_str (event : json) (d : list (str * json)) :
  event_body i event = Return (JObj d) ->
  is_str (content_type_of d) = false ->
  invoke i g w event
  = (Return internal_error_response,
     [IoPrint error_prefix
        (AttributeError (content_type_of d) (py "startswith"))]).
Proof.
  intros H Hs; unfold invoke.
  now rewrite (lambda_handler_raise i g w event JNull []
                 (try_body_not_str i g w event JNull [] H Hs)).
Qed.

Lemma invoke_invalid (event : json) (d : list (str * json)) (ct : str) :
  event_body i event = Return (JObj d) ->
  content_type_of d = JStr ct ->
  startswith ct (py "image/") = false ->
  invoke i g w event = (Return invalid_content_type_response, []).
Proof.
  intros H Hc Hp; unfold invoke; apply lambda_handler_return.
  now apply (try_body_invalid i g w event JNull [] H Hc).
Qed.

Lemma invoke_unsupported (event : json) (d : list (str * json)) (ct : str) :
  event_body i event = Return (JObj d) ->
  content_type_of d = JStr ct ->
  startswith ct (py "image/") = true ->
  str_in ct allowed_types = false ->
  invoke i g w event
  = (Return (error_response 400
               (unsupported_message ct (set_iter w allowed_types))), []).
Proof.
  intros H Hc Hp Ha; unfold invoke; apply lambda_handler_return.
  now apply (try_body_unsupported i g w event JNull [] H Hc).
Qed.

Lemma invoke_valid (event : json) (d : list (str * json)) (ct : str) :
  event_body i event = Return (JObj d) ->
  content_type_of d = JStr ct ->
  str_in ct allowed_types = true ->
  let call := put_object_call g (derived_key w ct) ct in
  invoke i g w event
  = match generate_presigned_url w (s3_client g) call with
    | Return url =>
        (Return (success_response url (derived_key w ct)),
         [IoPresign (s3_client g) call])
    | Raise e =>
        (Return internal_error_response,
         [IoPresign (s3_client g) call; IoPrint error_prefix e])
    end.
Proof.
  intros H Hc Ha call; unfold invoke.
  pose proof (try_body_valid i g w event JNull [] H Hc Ha) as Hv.
  cbv zeta in Hv; fold call in Hv.
  destruct (generate_presigned_url w (s3_client g) call) as [url|e].
  - now rewrite (lambda_handler_return i g w event JNull [] Hv).
  - now rewrite (lambda_handler_raise i g w event JNull [] Hv).
Qed.

Lemma allowed_type_subtype (ct : str) :
  str_in ct allowed_types = true ->
  exists ext, In ext allowed_subtypes /\ ct = py "image/" ++ ext
              /\ ext_of ct = ext.
Proof.
  intros H; apply str_in_In in H; simpl in H.
  destruct H as [<-|[<-|[<-|[<-|[]]]]].
  - exists (py "jpeg"); repeat split; simpl; auto.
  - exists (py "png"); repeat split; simpl; auto.
  - exists (py "gif"); repeat split; simpl; auto.
  - exists (py "webp"); repeat split; simpl; auto.
Qed.

(** Line 23, by what the event is and what its [body] holds. *)
Lemma event_body_cases (event : json) :
  ((forall entries, event <> JObj entries)
   /\ event_body i event = Raise (AttributeError event (py "get")))
  \/ (exists entries,
        event = JObj entries /\ dict_get entries (py "body") = None
        /\ event_body i event = Return (JObj []))
  \/ (exists entries v,
        event = JObj entries /\ dict_get entries (py "body") = Some v
        /\ is_str v = false /\ event_body i event = Raise (TypeError v))
  \/ (exists entries doc,
        event = JObj entries
        /\ dict_get entries (py "body") = Some (JStr doc)
        /\ event_body i event = json_loads i (JStr doc)).
Proof.
  unfold event_body, py_get.
  destruct event as [| | | | |items|entries];
    try (left; split; [intros entries; discriminate | reflexivity]).
  right; cbn [outcome_bind].
  destruct (dict_get entries (py "body")) as [v|] eqn:Hb.
  - right.
    destruct v as [| | | |doc| |];
      try (left; eexists entries, _;
           split; [reflexivity|]; split; [exact Hb|]; split; reflexivity).
    right; exists entries, doc.
    split; [reflexivity|]; split; [exact Hb | reflexivity].
  - left; exists entries.
    split; [reflexivity|]; split; [exact Hb|].
    apply (json_loads_empty_object i).
Qed.

End HandlerCases.

Section FurtherProperties.

Variable i : Interpreter.
Variable g : Globals.
Variable w : World.

(** X1.  Whatever the event, the response is one of four: the rejection
    of a content type without the [image/] prefix, the rejection of an
    image type outside the allowed set, the success response for an
    allowed type, or the internal error; its status is 200, 400 or 500. *)
Theorem response_is_one_of_four (event : json) :
  exists r,
    fst (invoke i g w event) = Return r
    /\ (r = invalid_content_type_response
        \/ (exists ct,
              startswith ct (py "image/") = true
              /\ str_in ct allowed_types = false
              /\ r = error_response 400
                       (unsupported_message ct (set_iter w allowed_types)))
        \/ (exists ct url,
              str_in ct allowed_types = true
              /\ r = success_response url (derived_key w ct))
        \/ r = internal_error_response)
    /\ (statusCode r = 200 \/ statusCode r = 400 \/ statusCode r = 500)%Z.
Proof.
  destruct (request_cases i event)
    as [(e & H)|[(v & H & Hv)|[(d & H & Hs)|[(d & ct & H & Hc & Hp)
       |[(d & ct & H & Hc & Hp & Ha)|(d & ct & H & Hc & Ha)]]]]].
  - rewrite (invoke_no_body i g w event H); eexists; split; [reflexivity|].
    split; [now do 3 right | now do 2 right].
  - rewrite (invoke_not_dict i g w event H Hv); eexists; split; [reflexivity|].
    split; [now do 3 right | now do 2 right].
  - rewrite (invoke_not_str i g w event H Hs); eexists; split; [reflexivity|].
    split; [now do 3 right | now do 2 right].
  - rewrite (invoke_invalid i g w event H Hc Hp).
    eexists; split; [reflexivity|].
    split; [now left | now right; left].
  - rewrite (invoke_unsupported i g w event H Hc Hp Ha).
    eexists; split; [reflexivity|].
    split; [right; left; now exists ct | now right; left].
  - rewrite (invoke_valid i g w event H Hc Ha); cbv zeta.
    destruct (generate_presigned_url w (s3_client g)
                (put_object_call g (derived_key w ct) ct)) as [url|e].
    + eexists; split; [reflexivity|].
      split; [right; right; left; now exists ct, url | now left].
    + eexists; split; [reflexivity|].
      split; [now do 3 right | now do 2 right].
Qed.

(** X2.  An invocation asks for a signature at most once, and it asks
    exactly when the body decodes to an object whose [contentType] is one
    of the four allowed types: then the one request carries that content
    type, the configured bucket and the key derived for that type; in
    every other case nothing is asked. *)
Theorem signs_exactly_the_allowed_types (event : json) :
  (exists d ct,
     event_body i event = Return (JObj d)
     /\ content_type_of d = JStr ct
     /\ str_in ct allowed_types = true
     /\ exists call,
          presign_calls (snd (invoke i g w event)) = [(s3_client g, call)]
          /\ ContentType call = ct
          /\ Bucket call = BUCKET_NAME g
          /\ Key call = derived_key w ct)
  \/ ((forall d ct,
         event_body i event = Return (JObj d) ->
         content_type_of d = JStr ct ->
         str_in ct allowed_types = false)
      /\ presign_calls (snd (invoke i g w event)) = []).
Proof.
  destruct (request_cases i event)
    as [(e & H)|[(v & H & Hv)|[(d & H & Hs)|[(d & ct & H & Hc & Hp)
       |[(d & ct & H & Hc & Hp & Ha)|(d & ct & H & Hc & Ha)]]]]].
  - right; rewrite (invoke_no_body i g w event H); split; [|reflexivity].
    intros d ct H'; congruence.
  - right; rewrite (invoke_not_dict i g w event H Hv); split; [|reflexivity].
    intros d ct H'; rewrite H in H'; injection H' as ->.
    now destruct (Hv d).
  - right; rewrite (invoke_not_str i g w event H Hs); split; [|reflexivity].
    intros d' ct H' Hc; rewrite H in H'; injection H' as <-.
    rewrite Hc in Hs; discriminate.
  - right; rewrite (invoke_invalid i g w event H Hc Hp); split; [|reflexivity].
    intros d' ct' H' Hc'; rewrite H in H'; injection H' as <-.
    rewrite Hc in Hc'; injection Hc' as <-.
    destruct (str_in ct allowed_types) eqn:Ha; [|reflexivity].
    rewrite (allowed_startswith _ Ha) in Hp; discriminate.
  - right; rewrite (invoke_unsupported i g w event H Hc Hp Ha).
    split; [|reflexivity].
    intros d' ct' H' Hc'; rewrite H in H'; injection H' as <-.
    rewrite Hc in Hc'; injection Hc' as <-. exact Ha.
  - left; exists d, ct; repeat split; try assumption.
    exists (put_object_call g (derived_key w ct) ct).
    rewrite (invoke_valid i g w event H Hc Ha); cbv zeta.
    split; [|now repeat split].
    destruct (generate_presigned_url w (s3_client g)
                (put_object_call g (derived_key w ct) ct)); reflexivity.
Qed.

(** X3.  For each of the four allowed content types, when the clock is at
    or after the epoch and the signing call returns a URL, the response
    is 200 with that URL and the derived key, after exactly one signing
    call, and the key has the shape [uploads/<digits>-<six
    characters>.<subtype>] with the subtype of the content type. *)
Theorem allowed_request_succeeds (event : json) (d : list (str * json))
  (ct url : str) :
  event_body i event = Return (JObj d) ->
  content_type_of d = JStr ct ->
  str_in ct allowed_types = true ->
  (0 <= clock w)%Z ->
  generate_presigned_url w (s3_client g)
    (put_object_call g (derived_key w ct) ct) = Return url ->
  invoke i g w event
  = (Return (success_response url (derived_key w ct)),
     [IoPresign (s3_client g) (put_object_call g (derived_key w ct) ct)])
  /\ exists ext,
       In ext allowed_subtypes
       /\ ct = py "image/" ++ ext
       /\ Regex.fullmatch (Regex.key_pattern ext) (derived_key w ct) = true.
Proof.
  intros H Hc Ha Ht Hsign; split.
  - rewrite (invoke_valid i g w event H Hc Ha); cbv zeta; now rewrite Hsign.
  - destruct (allowed_type_subtype ct Ha) as (ext & Hin & Hct & Hext).
    exists ext; repeat split; [exact Hin | exact Hct|].
    unfold derived_key; rewrite Hext.
    destruct (random_suffix_shape (Uuid.uuid4_int (urandom w))) as [Hlen Hhex].
    apply object_key_shape; [exact Ht | exact Hlen|].
    exact (@forallb_impl _ is_lower_hex Regex.is_alnum_dash _
             lower_hex_alnum_dash Hhex).
Qed.

(** X4.  A line is printed exactly when the [try] body raises, and then
    the response is the internal error: the log is what the [try] body
    left, in which nothing is printed, followed by the one line, and the
    line carries the very exception that the [try] body raised.  When the
    [try] body returns, its response is the answer, the status is not
    500 and nothing is printed. *)
Theorem prints_exactly_on_internal_error (event : json) :
  (exists e before,
     try_body i g event JNull w [] = (Raise e, before)
     /\ invoke i g w event
        = (Return internal_error_response, before ++ [IoPrint error_prefix e])
     /\ printed before = []
     /\ printed (snd (invoke i g w event)) = [e])
  \/ (exists r log,
        try_body i g event JNull w [] = (Return r, log)
        /\ invoke i g w event = (Return r, log)
        /\ statusCode r <> 500%Z
        /\ printed log = []).
Proof.
  destruct (request_cases i event)
    as [(e & H)|[(v & H & Hv)|[(d & H & Hs)|[(d & ct & H & Hc & Hp)
       |[(d & ct & H & Hc & Hp & Ha)|(d & ct & H & Hc & Ha)]]]]].
  - left; exists e, [].
    rewrite (try_body_no_body i g w event JNull [] H).
    rewrite (invoke_no_body i g w event H); now repeat split.
  - left; exists (AttributeError v (py "get")), [].
    rewrite (try_body_not_dict i g w event JNull [] H Hv).
    rewrite (invoke_not_dict i g w event H Hv); now repeat split.
  - left; exists (AttributeError (content_type_of d) (py "startswith")), [].
    rewrite (try_body_not_str i g w event JNull [] H Hs).
    rewrite (invoke_not_str i g w event H Hs); now repeat split.
  - right; exists invalid_content_type_response, [].
    rewrite (try_body_invalid i g w event JNull [] H Hc Hp).
    rewrite (invoke_invalid i g w event H Hc Hp).
    repeat split; discriminate.
  - right; eexists _, [].
    rewrite (try_body_unsupported i g w event JNull [] H Hc Hp Ha).
    rewrite (invoke_unsupported i g w event H Hc Hp Ha).
    repeat split; discriminate.
  - pose proof (try_body_valid i g w event JNull [] H Hc Ha) as Ht.
    cbv zeta in Ht; rewrite Ht.
    rewrite (invoke_valid i g w event H Hc Ha); cbv zeta.
    destruct (generate_presigned_url w (s3_client g)
                (put_object_call g (derived_key w ct) ct)) as [url|e].
    + right; eexists _, _; repeat split; discriminate.
    + left; eexists e, _; now repeat split.
Qed.

(** X5.  When line 23 does not give a dictionary, the response is the
    internal error, nothing is signed, and the one line printed carries
    the exception of that line: [AttributeError] for an event without
    [get]; [TypeError] for a [body] that is not a string; for a [body]
    that is a string, [JSONDecodeError] when the interpreter refuses the
    text, [RecursionError] when the text is nested too deep for it,
    [ValueError] when an integer has too many digits for it (in both the
    first and the last case [RecursionError] instead, where the scanner
    is too deep to raise), and [AttributeError] when the text decodes to
    a value that is not an object. *)
Theorem no_object_body_is_internal_error (event : json) :
  (forall d, event_body i event <> Return (JObj d)) ->
  exists e,
    invoke i g w event
    = (Return internal_error_response, [IoPrint error_prefix e])
    /\ (((forall entries, event <> JObj entries)
         /\ e = AttributeError event (py "get"))
        \/ (exists entries v,
              event = JObj entries
              /\ dict_get entries (py "body") = Some v
              /\ is_str v = false /\ e = TypeError v)
        \/ (exists entries doc,
              event = JObj entries
              /\ dict_get entries (py "body") = Some (JStr doc)
              /\ ((decode_in i doc = Malformed
                   /\ e = raised_by_scanner i doc (JSONDecodeError doc))
                  \/ (decode_in i doc = TooDeep /\ e = RecursionError)
                  \/ (exists text,
                        decode_in i doc = TooManyDigits text
                        /\ e = raised_by_scanner i doc (ValueError text))
                  \/ (exists v,
                        decode_in i doc = Scanned v []
                        /\ (forall d, v <> JObj d)
                        /\ e = AttributeError v (py "get"))))).
Proof.
  intros Hno.
  destruct (event_body_cases i event)
    as [(Hev & H)|[(entries & _ & _ & H)|[(entries & v & Hev & Hb & Hs & H)
       |(entries & doc & Hev & Hb & H)]]].
  - eexists; split; [apply invoke_no_body; exact H|].
    left; now split.
  - now destruct (Hno []).
  - eexists; split; [apply invoke_no_body; exact H|].
    right; left; now exists entries, v.
  - destruct (json_loads_outcomes i doc)
      as [(v & E & Hl)|[(E & Hl)|[(E & Hl)|(text & E & Hl)]]];
      rewrite Hl in H.
    + assert (Hv : forall d, v <> JObj d)
        by (intros d ->; now apply (Hno d)).
      eexists; split; [apply invoke_not_dict; [exact H | exact Hv]|].
      do 2 right; exists entries, doc.
      split; [exact Hev|]; split; [exact Hb|].
      do 3 right; now exists v.
    + eexists; split; [apply invoke_no_body; exact H|].
      do 2 right; exists entries, doc.
      split; [exact Hev|]; split; [exact Hb|].
      left; now split.
    + eexists; split; [apply invoke_no_body; exact H|].
      do 2 right; exists entries, doc.
      split; [exact Hev|]; split; [exact Hb|].
      right; left; now split.
    + eexists; split; [apply invoke_no_body; exact H|].
      do 2 right; exists entries, doc.
      split; [exact Hev|]; split; [exact Hb|].
      do 2 right; left; now exists text.
Qed.

(** X6.  The response and the effects depend on the event only through
    the [contentType] of its body, an absent one counting as the empty
    string: the other fields of the body, the other entries of the event
    and the context change nothing. *)
Theorem response_depends_only_on_content_type (event1 event2 : json)
  (context1 context2 : json) (log : list io) (d1 d2 : list (str * json)) :
  event_body i event1 = Return (JObj d1) ->
  event_body i event2 = Return (JObj d2) ->
  content_type_of d1 = content_type_of d2 ->
  lambda_handler i g event1 context1 w log
  = lambda_handler i g event2 context2 w log.
Proof.
  intros H1 H2 Hct.
  unfold lambda_handler, try_except, try_body, bind, lift.
  rewrite H1, H2; unfold py_get.
  fold (content_type_of d1); fold (content_type_of d2); now rewrite Hct.
Qed.

End FurtherProperties.

(* ------------------------------------------------------------------ *)
(** ** Keys *)

Section KeyFacts.

Lemma split_nonempty (s : str) (sep : char) : split s sep <> [].
Proof.
  destruct s as [|c s]; simpl; [discriminate|].
  destruct (N.eqb c sep); [discriminate|].
  destruct (split s sep); discriminate.
Qed.

(** The last piece of a split holds no separator; the string is that
    piece when it holds no separator itself, and otherwise ends with a
    separator followed by that piece. *)
Lemma last_split (s : str) (sep : char) :
  has_char sep (last (split s sep) []) = false
  /\ ((has_char sep s = false /\ split s sep = [s])
      \/ (exists front, s = front ++ sep :: last (split s sep) [])
         /\ exists x y rest, split s sep = x :: y :: rest).
Proof.
  induction s as [|c s (IHlast & IHcases)]; [split; [reflexivity | now left]|].
  cbn [split]; unfold has_char in *; cbn [existsb].
  destruct (N.eqb c sep) eqn:Ec.
  - apply N.eqb_eq in Ec; subst c.
    destruct IHcases as [[Hno Hone]|[(front & Hfront) (x & y & rest & Hsp)]].
    + rewrite Hone in *; cbn [last] in *.
      split; [exact IHlast|]. right; split; [now exists [] | now exists [], s, []].
    + rewrite Hsp in *.
      change (last ([] :: x :: y :: rest) []) with (last (x :: y :: rest) []).
      split; [exact IHlast|]. right; split.
      * exists (sep :: front); cbn [app]; now rewrite <- Hfront.
      * now exists [], x, (y :: rest).
  - destruct IHcases as [[Hno Hone]|[(front & Hfront) (x & y & rest & Hsp)]].
    + rewrite Hone in *; cbn [last existsb].
      rewrite Ec, Hno; split; [reflexivity | now left].
    + rewrite Hsp in *.
      change (last ((c :: x) :: y :: rest) []) with (last (x :: y :: rest) []).
      split; [exact IHlast|]. right; split.
      * exists (c :: front); cbn [app]; now rewrite <- Hfront.
      * now exists (c :: x), y, rest.
Qed.

Lemma has_char_app (sep : char) (a b : str) :
  has_char sep (a ++ b) = has_char sep a || has_char sep b.
Proof. apply existsb_app. Qed.

Lemma has_char_class (sep : char) (p : char -> bool) (s : str) :
  p sep = false -> forallb p s = true -> has_char sep s = false.
Proof.
  intros Hsep; induction s as [|c s IH]; intros H; [reflexivity|].
  cbn [forallb] in H; apply andb_true_iff in H as [Hc Hs].
  unfold has_char; cbn [existsb]; fold (has_char sep s); rewrite (IH Hs).
  destruct (N.eqb c sep) eqn:E; [|reflexivity].
  apply N.eqb_eq in E; subst c; congruence.
Qed.

(** The text of an [int]: an optional minus sign, then digits, at least
    one. *)
Lemma str_of_int_shape (n : Z) :
  exists sign ds,
    str_of_int n = sign ++ ds
    /\ (sign = [] \/ sign = [45%N])
    /\ ds <> [] /\ forallb is_digit ds = true.
Proof.
  unfold str_of_int; destruct n as [|p|p]; cbn [Z.to_int].
  - exists [], [48%N]; repeat split; [now left | discriminate].
  - exists [], (str_of_uint (Pos.to_uint p)); repeat split; [now left | |].
    + apply str_of_uint_nonempty, DecimalPos.Unsigned.to_uint_nonnil.
    + apply str_of_uint_digits.
  - exists [45%N], (str_of_uint (Pos.to_uint p)); repeat split; [now right | |].
    + apply str_of_uint_nonempty, DecimalPos.Unsigned.to_uint_nonnil.
    + apply str_of_uint_digits.
Qed.

Lemma str_of_uint_inj (d d' : Decimal.uint) :
  str_of_uint d = str_of_uint d' -> d = d'.
Proof.
  revert d'; induction d; destruct d'; cbn; intros H;
    try discriminate; try reflexivity;
    injection H as H; f_equal; now apply IHd.
Qed.

(** Different integers have different texts. *)
Lemma str_of_int_inj (n n' : Z) : str_of_int n = str_of_int n' -> n = n'.
Proof.
  unfold str_of_int; intros H; apply DecimalZ.to_int_inj.
  destruct (Z.to_int n) as [d|d] eqn:E, (Z.to_int n') as [d'|d'] eqn:E'.
  - f_equal; now apply str_of_uint_inj.
  - exfalso; pose proof (str_of_uint_digits d) as Hd.
    rewrite H in Hd; discriminate.
  - exfalso; pose proof (str_of_uint_digits d') as Hd.
    rewrite <- H in Hd; discriminate.
  - injection H as H; f_equal; now apply str_of_uint_inj.
Qed.

(** Two runs of digits, each followed by a dash: the runs and what
    follows them are the same when the whole texts are. *)
Lemma digits_dash_inj (a b x y : str) :
  forallb is_digit a = true -> forallb is_digit b = true ->
  a ++ 45%N :: x = b ++ 45%N :: y -> a = b /\ x = y.
Proof.
  revert b; induction a as [|c a IH]; intros [|c' b] Ha Hb H; cbn in *.
  - injection H as ->; now split.
  - injection H as <- _; discriminate.
  - injection H as -> _; discriminate.
  - apply andb_true_iff in Ha as [_ Ha]; apply andb_true_iff in Hb as [_ Hb].
    injection H as -> H; destruct (IH b Ha Hb H) as [-> ->]; now split.
Qed.

Lemma app_inj_length (A : Type) (a b x y : list A) :
  List.length a = List.length b -> a ++ x = b ++ y -> a = b /\ x = y.
Proof.
  revert b; induction a as [|c a IH]; intros [|c' b] Hl H; cbn in *;
    try discriminate; [now split|].
  injection H as -> H; injection Hl as Hl.
  destruct (IH b Hl H) as [-> ->]; now split.
Qed.

(** Line 58 loses nothing: the key determines the timestamp, the suffix
    and the extension, for suffixes of one length. *)
Lemma object_key_inj (t t' : Z) (s s' e e' : str) :
  List.length s = List.length s' ->
  object_key t s e = object_key t' s' e' ->
  t = t' /\ s = s' /\ e = e'.
Proof.
  intros Hlen H; unfold object_key in H.
  apply app_inv_head in H.
  change (py "-" ++ s ++ py "." ++ e) with (45%N :: s ++ py "." ++ e) in H.
  change (py "-" ++ s' ++ py "." ++ e') with (45%N :: s' ++ py "." ++ e') in H.
  assert (Ht : str_of_int t = str_of_int t'
               /\ s ++ py "." ++ e = s' ++ py "." ++ e').
  { destruct (str_of_int_shape t) as (sg & ds & E & Hsg & Hne & Hds).
    destruct (str_of_int_shape t') as (sg' & ds' & E' & Hsg' & Hne' & Hds').
    rewrite E, E' in *.
    destruct ds as [|c ds]; [congruence|]; destruct ds' as [|c' ds'];
      [congruence|].
    pose proof Hds as Hc; pose proof Hds' as Hc'.
    cbn [forallb] in Hc, Hc'.
    apply andb_true_iff in Hc as [Hc _]; apply andb_true_iff in Hc' as [Hc' _].
    destruct Hsg as [->| ->], Hsg' as [->| ->]; cbn [app] in H |- *.
    - destruct (digits_dash_inj (c :: ds) (c' :: ds') _ _ Hds Hds' H)
        as [-> ->]; now split.
    - injection H as -> _; discriminate.
    - injection H as <- _; discriminate.
    - apply (f_equal (@tl _)) in H; cbn [tl] in H.
      destruct (digits_dash_inj (c :: ds) (c' :: ds') _ _ Hds Hds' H)
        as [-> ->]; now split. }
  destruct Ht as [Ht Hrest]; apply str_of_int_inj in Ht.
  destruct (app_inj_length _ _ _ _ Hlen Hrest) as [-> He].
  injection He as ->; now repeat split.
Qed.

End KeyFacts.

Section KeyProperties.

(** X7.  Line 57 takes what follows the last slash: the extension holds
    no slash; it is the whole content type when that holds no slash, and
    otherwise the content type ends with a slash followed by the
    extension (which is empty when the content type ends with a slash). *)
Theorem ext_of_follows_the_last_slash (content_type : str) :
  has_slash (ext_of content_type) = false
  /\ ((has_slash content_type = false /\ ext_of content_type = content_type)
      \/ exists front, content_type = front ++ py "/" ++ ext_of content_type).
Proof.
  unfold ext_of, has_slash.
  destruct (last_split content_type 47%N) as [Hno [[Hs Hone]|[(front & Hf) _]]].
  - split; [exact Hno|]. left; split; [exact Hs | now rewrite Hone].
  - split; [exact Hno|]. right; now exists front.
Qed.

(** X8.  Every derived key lies directly under [uploads/]: after that
    prefix it holds no further slash, whatever the clock, the random
    bytes and the content type, valid or not. *)
Theorem derived_key_stays_under_uploads (w : World) (content_type : str) :
  exists name,
    derived_key w content_type = py "uploads/" ++ name
    /\ has_slash name = false.
Proof.
  unfold derived_key, object_key; eexists; split; [reflexivity|].
  unfold has_slash; rewrite !has_char_app.
  destruct (random_suffix_shape (Uuid.uuid4_int (urandom w))) as [_ Hhex].
  rewrite (@has_char_class 47%N is_lower_hex _ eq_refl Hhex).
  destruct (last_split content_type 47%N) as [Hext _].
  unfold ext_of; rewrite Hext.
  destruct (str_of_int_shape (clock w)) as (sg & ds & -> & Hsg & _ & Hds).
  rewrite has_char_app, (@has_char_class 47%N is_digit _ eq_refl Hds).
  destruct Hsg as [->| ->]; reflexivity.
Qed.

(** X9.  The key of a valid request is made of lowercase letters, digits,
    slashes, dashes and dots only: nothing of the request reaches it but
    the subtype, one of four fixed words. *)
Theorem valid_key_characters (w : World) (content_type : str) :
  str_in content_type allowed_types = true ->
  forallb is_key_char (derived_key w content_type) = true.
Proof.
  intros Ha; unfold derived_key, object_key.
  assert (Hext : forallb is_key_char (ext_of content_type) = true).
  { apply str_in_In in Ha; simpl in Ha.
    destruct Ha as [<-|[<-|[<-|[<-|[]]]]]; reflexivity. }
  destruct (random_suffix_shape (Uuid.uuid4_int (urandom w))) as [_ Hhex].
  destruct (str_of_int_shape (clock w)) as (sg & ds & -> & Hsg & _ & Hds).
  rewrite !forallb_app, Hext.
  assert (Hd : forall c, is_digit c = true -> is_key_char c = true)
    by (intros c Hc; unfold is_key_char; now rewrite Hc).
  assert (Hh : forall c, is_lower_hex c = true -> is_key_char c = true).
  { intros c Hc; unfold is_lower_hex in Hc; unfold is_key_char.
    apply orb_true_iff in Hc as [Hc|Hc]; [now rewrite Hc|].
    apply andb_true_iff in Hc as [H1 H2]; apply N.leb_le in H1, H2.
    assert (Hz : (c <=? 122)%N = true) by (apply N.leb_le; lia).
    now rewrite (proj2 (N.leb_le _ _) H1), Hz, orb_true_r. }
  rewrite (@forallb_impl _ is_digit is_key_char _ Hd Hds).
  rewrite (@forallb_impl _ is_lower_hex is_key_char _ Hh Hhex).
  destruct Hsg as [->| ->]; reflexivity.
Qed.

(** X10.  The key determines its parts: two invocations derive the same
    key only with the same clock reading, the same random suffix and the
    same extension. *)
Theorem derived_key_determines_its_parts (w1 w2 : World) (ct1 ct2 : str) :
  derived_key w1 ct1 = derived_key w2 ct2 ->
  clock w1 = clock w2
  /\ random_suffix_of (Uuid.uuid4_int (urandom w1))
     = random_suffix_of (Uuid.uuid4_int (urandom w2))
  /\ ext_of ct1 = ext_of ct2.
Proof.
  unfold derived_key; apply object_key_inj.
  destruct (random_suffix_shape (Uuid.uuid4_int (urandom w1))) as [-> _].
  now destruct (random_suffix_shape (Uuid.uuid4_int (urandom w2))) as [-> _].
Qed.

End KeyProperties.

(* ------------------------------------------------------------------ *)
(** ** The random suffix *)

Section HexFacts.

Lemma below_16 (d : N) :
  (d < 16)%N ->
  In d [0; 1; 2; 3; 4; 5; 6; 7; 8; 9; 10; 11; 12; 13; 14; 15]%N.
Proof.
  intros H; apply (@range_In 16 0%N d); lia.
Qed.

Lemma hex_cons_value (d : N) (u : Hexadecimal.uint) :
  (d < 16)%N ->
  HexadecimalPos.Unsigned.of_lu (hex_cons d u)
  = (d + 16 * HexadecimalPos.Unsigned.of_lu u)%N.
Proof.
  intros H; apply below_16 in H; simpl in H.
  repeat (destruct H as [<-|H]; [cbn; lia|]); destruct H.
Qed.

Lemma hex_cons_str (d : N) (u : Hexadecimal.uint) :
  (d < 16)%N ->
  str_of_hex_uint (hex_cons d u) = hex_char d :: str_of_hex_uint u.
Proof.
  intros H; apply below_16 in H; simpl in H.
  repeat (destruct H as [<-|H]; [reflexivity|]); destruct H.
Qed.

Lemma little_digits_value (k : nat) (n : N) :
  HexadecimalPos.Unsigned.of_lu (little_digits k n) = (n mod 16 ^ N.of_nat k)%N.
Proof.
  revert n; induction k as [|k IH]; intros n.
  - cbn; now rewrite N.mod_1_r.
  - cbn [little_digits]; rewrite hex_cons_value by (apply N.mod_lt; lia).
    rewrite IH, Nat2N.inj_succ, N.pow_succ_r', N.Div0.mod_mul_r; reflexivity.
Qed.

Lemma str_of_revapp (u v : Hexadecimal.uint) :
  str_of_hex_uint (Hexadecimal.revapp u v)
  = rev (str_of_hex_uint u) ++ str_of_hex_uint v.
Proof.
  revert v; induction u; intros v; cbn [Hexadecimal.revapp str_of_hex_uint rev];
    [reflexivity| ..]; rewrite IHu; cbn [str_of_hex_uint];
    now rewrite <- app_assoc.
Qed.

Lemma little_digits_str (k : nat) (n : N) :
  rev (str_of_hex_uint (little_digits k n)) = hex_digits k n.
Proof.
  revert n; induction k as [|k IH]; intros n; [reflexivity|].
  cbn [little_digits hex_digits].
  rewrite hex_cons_str by (apply N.mod_lt; lia).
  cbn [rev]; now rewrite IH.
Qed.

Lemma hex_digits_length (k : nat) (n : N) : List.length (hex_digits k n) = k.
Proof.
  revert n; induction k as [|k IH]; intros n; [reflexivity|].
  cbn [hex_digits]; rewrite length_app, IH; simpl; lia.
Qed.

Lemma nzhead_length (u : Hexadecimal.uint) :
  List.length (str_of_hex_uint (Hexadecimal.nzhead u))
  <= List.length (str_of_hex_uint u).
Proof. induction u; cbn; lia. Qed.

(** Putting back the leading zeros. *)
Lemma nzhead_pad (u : Hexadecimal.uint) :
  repeat 48%N (List.length (str_of_hex_uint u)
               - List.length (str_of_hex_uint (Hexadecimal.nzhead u)))
  ++ str_of_hex_uint (Hexadecimal.nzhead u)
  = str_of_hex_uint u.
Proof.
  induction u; cbn [Hexadecimal.nzhead str_of_hex_uint];
    try (rewrite Nat.sub_diag; reflexivity).
  pose proof (nzhead_length u) as L.
  cbn [List.length]; rewrite Nat.sub_succ_l by exact L.
  cbn [repeat app]; now rewrite IHu.
Qed.

Lemma unorm_pad (u : Hexadecimal.uint) :
  u <> Hexadecimal.Nil ->
  repeat 48%N (List.length (str_of_hex_uint u)
               - List.length (str_of_hex_uint (Hexadecimal.unorm u)))
  ++ str_of_hex_uint (Hexadecimal.unorm u)
  = str_of_hex_uint u.
Proof.
  intros Hne; pose proof (nzhead_pad u) as H; unfold Hexadecimal.unorm.
  destruct (Hexadecimal.nzhead u) eqn:E; try exact H.
  cbn [str_of_hex_uint List.length app] in *.
  rewrite app_nil_r, Nat.sub_0_r in H; rewrite <- H at 2.
  destruct (List.length (str_of_hex_uint u)) as [|m] eqn:El.
  - destruct u; cbn in El; congruence.
  - cbn [Nat.sub]; rewrite Nat.sub_0_r.
    change [hex_char 0] with (repeat 48%N 1).
    rewrite <- repeat_app; f_equal; lia.
Qed.

(** ['%0kx' % n] is the [k] digits of [n] when [n] fits in them. *)
Lemma format_0x_digits (k : nat) (n : N) :
  k <> 0 -> (n < 16 ^ N.of_nat k)%N -> format_0x k n = hex_digits k n.
Proof.
  intros Hk Hn; unfold format_0x.
  set (u := Hexadecimal.rev (little_digits k n)).
  assert (Hu : str_of_hex_uint u = hex_digits k n).
  { unfold u, Hexadecimal.rev; rewrite str_of_revapp, app_nil_r.
    apply little_digits_str. }
  assert (Hto : N.to_hex_uint n = Hexadecimal.unorm u).
  { rewrite <- (HexadecimalN.Unsigned.to_of u); f_equal.
    unfold u, N.of_hex_uint.
    rewrite HexadecimalPos.Unsigned.of_lu_rev, little_digits_value.
    symmetry; now apply N.mod_small. }
  assert (Hne : u <> Hexadecimal.Nil).
  { intros E; rewrite E in Hu; cbn in Hu.
    apply (f_equal (@List.length _)) in Hu.
    rewrite hex_digits_length in Hu; cbn in Hu; congruence. }
  cbv zeta; rewrite Hto.
  pose proof (unorm_pad Hne) as Hp.
  rewrite Hu, hex_digits_length in Hp; exact Hp.
Qed.

Lemma hex_digits_firstn (j m : nat) (n : N) :
  firstn j (hex_digits (j + m) n) = hex_digits j (n / 16 ^ N.of_nat m).
Proof.
  revert n; induction m as [|m IH]; intros n.
  - rewrite Nat.add_0_r, N.div_1_r.
    rewrite <- (hex_digits_length j n) at 1; apply firstn_all.
  - rewrite Nat.add_succ_r; cbn [hex_digits].
    rewrite firstn_app, hex_digits_length.
    replace (j - (j + m)) with 0 by lia.
    rewrite firstn_O, app_nil_r, IH, N.Div0.div_div.
    now rewrite Nat2N.inj_succ, N.pow_succ_r'.
Qed.

Lemma hex_char_inj (a b : N) :
  (a < 16)%N -> (b < 16)%N -> hex_char a = hex_char b -> a = b.
Proof.
  unfold hex_char; intros Ha Hb.
  destruct (a <? 10)%N eqn:Ea, (b <? 10)%N eqn:Eb;
    try apply N.ltb_lt in Ea; try apply N.ltb_ge in Ea;
    try apply N.ltb_lt in Eb; try apply N.ltb_ge in Eb; lia.
Qed.

(** Equal digits, equal numbers, up to the number of digits. *)
Lemma hex_digits_inj (k : nat) (a b : N) :
  hex_digits k a = hex_digits k b ->
  (a mod 16 ^ N.of_nat k = b mod 16 ^ N.of_nat k)%N.
Proof.
  revert a b; induction k as [|k IH]; intros a b H.
  - cbn; now rewrite !N.mod_1_r.
  - cbn [hex_digits] in H; apply app_inj_tail in H as [Hd Hc].
    apply IH in Hd.
    apply hex_char_inj in Hc; try (apply N.mod_lt; lia).
    rewrite Nat2N.inj_succ, N.pow_succ_r', !N.Div0.mod_mul_r; congruence.
Qed.

(** The version and variant bits are set below the first 24 bits, and a
    UUID stays below [2^128]. *)
Lemma uuid4_int_top (n : N) :
  (Uuid.uuid4_int n / 2 ^ 104 = n / 2 ^ 104)%N.
Proof.
  unfold Uuid.uuid4_int; cbv zeta.
  rewrite <- !N.shiftr_div_pow2.
  rewrite N.shiftr_lor, N.shiftr_ldiff, N.shiftr_lor, N.shiftr_ldiff.
  change (N.shiftr (N.shiftl 0xc000 48) 104) with 0%N.
  change (N.shiftr (N.shiftl 0x8000 48) 104) with 0%N.
  change (N.shiftr (N.shiftl 0xf000 64) 104) with 0%N.
  change (N.shiftr (N.shiftl 4 76) 104) with 0%N.
  now rewrite !N.ldiff_0_r, !N.lor_0_r.
Qed.

Lemma uuid4_int_bound (n : N) :
  (n < 2 ^ 128)%N -> (Uuid.uuid4_int n < 2 ^ 128)%N.
Proof.
  intros Hn; apply N.div_small_iff; [discriminate|].
  unfold Uuid.uuid4_int; cbv zeta.
  rewrite <- !N.shiftr_div_pow2.
  rewrite N.shiftr_lor, N.shiftr_ldiff, N.shiftr_lor, N.shiftr_ldiff.
  change (N.shiftr (N.shiftl 0xc000 48) 128) with 0%N.
  change (N.shiftr (N.shiftl 0x8000 48) 128) with 0%N.
  change (N.shiftr (N.shiftl 0xf000 64) 128) with 0%N.
  change (N.shiftr (N.shiftl 4 76) 128) with 0%N.
  rewrite !N.ldiff_0_r, !N.lor_0_r, N.shiftr_div_pow2.
  now apply N.div_small.
Qed.

(** The suffix is the first three of the sixteen random bytes. *)
Lemma random_suffix_digits (n : N) :
  (n < 2 ^ 128)%N ->
  random_suffix_of (Uuid.uuid4_int n) = hex_digits 6 (n / 2 ^ 104).
Proof.
  intros Hn; unfold random_suffix_of, Uuid.uuid_str, take; cbv zeta.
  rewrite format_0x_digits;
    [|discriminate
     |change (16 ^ N.of_nat 32)%N with (2 ^ 128)%N; now apply uuid4_int_bound].
  set (hex := hex_digits 32 (Uuid.uuid4_int n)).
  rewrite firstn_app, firstn_firstn.
  assert (Hl : List.length hex = 32) by apply hex_digits_length.
  rewrite length_firstn, Hl.
  change (6 - Nat.min 8 32) with 0; rewrite firstn_O, app_nil_r.
  change (Nat.min 6 8) with 6.
  unfold hex; change 32 with (6 + 26); rewrite (hex_digits_firstn 6 26).
  change (16 ^ N.of_nat 26)%N with (2 ^ 104)%N.
  now rewrite uuid4_int_top.
Qed.

End HexFacts.

(** X11.  The random suffix is the first three of the sixteen random
    bytes in hexadecimal: two invocations get the same suffix exactly
    when their random bytes agree in the leading 24 bits. *)
Theorem suffixes_equal_iff_leading_bytes_equal (w1 w2 : World) :
  (urandom w1 < 2 ^ 128)%N -> (urandom w2 < 2 ^ 128)%N ->
  (random_suffix_of (Uuid.uuid4_int (urandom w1))
   = random_suffix_of (Uuid.uuid4_int (urandom w2))
   <-> (urandom w1 / 2 ^ 104 = urandom w2 / 2 ^ 104)%N).
Proof.
  intros H1 H2; rewrite !random_suffix_digits by assumption; split.
  - intros H; apply hex_digits_inj in H.
    change (16 ^ N.of_nat 6)%N with (2 ^ 24)%N in H.
    rewrite !N.mod_small in H; [exact H| |];
      apply N.Div0.div_lt_upper_bound;
      change (2 ^ 104 * 2 ^ 24)%N with (2 ^ 128)%N; assumption.
  - now intros ->.
Qed.

(* ------------------------------------------------------------------ *)
(** ** Dictionaries and the module body *)

Section DictFacts.

Lemma dict_get_None (V : Type) (d : list (str * V)) (k : str) :
  dict_get d k = None <-> ~ In k (map fst d).
Proof.
  induction d as [|[k' v] d IH]; cbn [dict_get map fst In]; [tauto|].
  destruct (str_eqb k' k) eqn:E.
  - apply str_eqb_eq in E; subst; split; [discriminate | tauto].
  - rewrite IH; split; [|tauto].
    intros Hn [->|Hin]; [|tauto]. now rewrite str_eqb_refl in E.
Qed.

(** Setting a key that is not there appends it. *)
Lemma dict_set_fresh (V : Type) (d : list (str * V)) (k : str) (v : V) :
  ~ In k (map fst d) -> dict_set d k v = d ++ [(k, v)].
Proof.
  induction d as [|[k' v'] d IH]; cbn [dict_set map fst In app]; intros H;
    [reflexivity|].
  destruct (str_eqb k' k) eqn:E.
  - apply str_eqb_eq in E; subst; tauto.
  - rewrite IH by tauto; reflexivity.
Qed.

Lemma dict_of_items_fresh (d : list (str * str)) :
  forall acc,
    NoDup (map fst d) ->
    (forall k, In k (map fst d) -> ~ In k (map fst acc)) ->
    dict_of_items d acc = acc ++ str_items d.
Proof.
  unfold dict_of_items, str_items.
  induction d as [|[k v] d IH]; intros acc Hnd Hdis;
    cbn [fold_left map fst snd]; [now rewrite app_nil_r|].
  apply NoDup_cons_iff in Hnd as [Hk Hnd].
  rewrite dict_set_fresh by (apply Hdis; now left).
  rewrite IH; [now rewrite <- app_assoc|exact Hnd|].
  intros k' Hin; rewrite map_app, in_app_iff; cbn [map fst In].
  intros [Hacc|[->|[]]]; [|tauto].
  apply (Hdis k'); [now right | exact Hacc].
Qed.

End DictFacts.

(** X13.  [json.loads] reads back what [json.dumps] wrote: for a
    dictionary of distinct keys whose keys and values are text, decoding
    the encoded text gives the same entries in the same order. *)
Theorem json_loads_reads_json_dumps (i : Interpreter) (d : list (str * str)) :
  NoDup (map fst d) ->
  forallb (fun kv => is_text (fst kv) && is_text (snd kv)) d = true ->
  json_loads i (JStr (json_dumps d)) = Return (JObj (str_items d)).
Proof.
  intros Hnd Ht; unfold json_loads.
  rewrite (decode_in_json_dumps i d Ht).
  rewrite (dict_of_items_fresh d [] Hnd); [reflexivity|].
  intros k _ [].
Qed.

(** X12.  The module fails at import when [REGION] is not set, when
    [boto3.client] raises for the region, when [BUCKET_NAME] is not set
    and when [SIGNED_URL_EXPIRE] is set to something that is not an
    integer; the first of these, in that order, is the error, so that a
    region that the client refuses hides a missing bucket name.  In
    every other case the module holds the client that [boto3.client]
    returned for [REGION], the bucket of [BUCKET_NAME] and the expiry of
    [SIGNED_URL_EXPIRE], or 120. *)
Theorem module_init_fails_fast
  (boto3_client : str -> str -> outcome S3Client)
  (int_of_str : str -> option Z) (environ : list (str * str)) :
  (dict_get environ (py "REGION") = None ->
   module_init boto3_client int_of_str environ
   = Raise (KeyError (py "REGION")))
  /\ (forall region e,
        dict_get environ (py "REGION") = Some region ->
        boto3_client (py "s3") region = Raise e ->
        module_init boto3_client int_of_str environ = Raise e)
  /\ (forall region client,
        dict_get environ (py "REGION") = Some region ->
        boto3_client (py "s3") region = Return client ->
        dict_get environ (py "BUCKET_NAME") = None ->
        module_init boto3_client int_of_str environ
        = Raise (KeyError (py "BUCKET_NAME")))
  /\ (forall region client bucket text,
        dict_get environ (py "REGION") = Some region ->
        boto3_client (py "s3") region = Return client ->
        dict_get environ (py "BUCKET_NAME") = Some bucket ->
        dict_get environ (py "SIGNED_URL_EXPIRE") = Some text ->
        int_of_str text = None ->
        module_init boto3_client int_of_str environ = Raise (ValueError text))
  /\ (forall region client bucket expire,
        dict_get environ (py "REGION") = Some region ->
        boto3_client (py "s3") region = Return client ->
        dict_get environ (py "BUCKET_NAME") = Some bucket ->
        match dict_get environ (py "SIGNED_URL_EXPIRE") with
        | Some text => int_of_str text = Some expire
        | None => expire = 120%Z
        end ->
        module_init boto3_client int_of_str environ
        = Return {| s3_client := client;
                    BUCKET_NAME := bucket;
                    EXPIRE_SECONDS := expire |}).
Proof.
  unfold module_init, environ_item, outcome_bind.
  split; [now intros ->|].
  split; [now intros region e -> ->|].
  split; [now intros region client -> -> ->|].
  split.
  - now intros region client bucket text -> -> -> -> ->.
  - intros region client bucket expire -> -> ->.
    destruct (dict_get environ (py "SIGNED_URL_EXPIRE")) as [text|];
      now intros ->.
Qed.

(* ------------------------------------------------------------------ *)
(** ** Every body is JSON *)

Section AnyString.

(** As [scanstring_escape_char], for every character that is not a high
    surrogate. *)
Lemma scanstring_escape_not_high (c : char) (tail acc : str) :
  is_code_point c = true -> is_high_surrogate c = false ->
  scanstring (escape_char c ++ tail) acc = scanstring tail (c :: acc).
Proof.
  intros Hc Hhigh.
  destruct (is_scalar c) eqn:Es; [now apply scanstring_escape_char|].
  unfold is_scalar in Es; apply orb_false_iff in Es as [E1 E2].
  apply N.ltb_ge in E1; unfold is_code_point in Hc; rewrite Hc in E2.
  rewrite andb_true_r in E2; apply N.ltb_ge in E2.
  unfold escape_char.
  repeat match goal with
         | |- context [N.eqb c ?k] =>
             destruct (N.eqb c k) eqn:?;
             [match goal with H : N.eqb c _ = true |- _ =>
                apply N.eqb_eq in H; lia end|]
         end.
  replace ((32 <=? c)%N && (c <=? 126)%N) with false
    by (symmetry; apply andb_false_iff; right; apply N.leb_gt; lia).
  replace (c <? 0x10000)%N with true by (symmetry; apply N.ltb_lt; lia).
  destruct (@u_escape c) as (h1 & h2 & h3 & h4 & -> & Hhex); [lia|].
  rewrite <- app_assoc; now apply scanstring_u.
Qed.

(** After the escape of a high surrogate the scanner looks ahead for the
    escape of a low surrogate. *)
Lemma scanstring_high (h1 h2 h3 h4 : char) (u : N) (rest acc : str) :
  hex4 h1 h2 h3 h4 = Some u -> is_high_surrogate u = true ->
  scanstring (py "\u" ++ [h1; h2; h3; h4] ++ rest) acc
  = match rest with
    | b :: x :: g1 :: g2 :: g3 :: g4 :: r3 =>
        if is_char "\" b && is_char "u" x then
          match hex4 g1 g2 g3 g4 with
          | None => None
          | Some u2 =>
              if is_low_surrogate u2
              then scanstring r3 (join_surrogates u u2 :: acc)
              else scanstring rest (u :: acc)
          end
        else scanstring rest (u :: acc)
    | _ => scanstring rest (u :: acc)
    end.
Proof.
  intros H1 H2.
  change (py "\u" ++ [h1; h2; h3; h4] ++ rest)
    with (92%N :: 117%N :: h1 :: h2 :: h3 :: h4 :: rest).
  cbn [scanstring].
  change (is_quote 92%N) with false; change (is_char "\" 92%N) with true.
  change (is_char "u" 117%N) with true; cbv iota.
  rewrite H1, H2.
  destruct rest as [|b [|x [|g1 [|g2 [|g3 [|g4 r3]]]]]]; reflexivity.
Qed.

(** How the escape of a character starts: with [\u] and four digits that
    read back as a number, which is a low surrogate only when it is the
    character itself and the escape ends there; or with something else. *)
Lemma escape_char_head (c : char) :
  is_code_point c = true ->
  (exists g1 g2 g3 g4 u more,
     escape_char c = 92%N :: 117%N :: g1 :: g2 :: g3 :: g4 :: more
     /\ hex4 g1 g2 g3 g4 = Some u
     /\ (is_low_surrogate u = true -> more = []))
  \/ (exists b, escape_char c = [b] /\ is_char "\" b = false)
  \/ (exists x, escape_char c = [92%N; x] /\ is_char "u" x = false).
Proof.
  intros Hc; unfold escape_char.
  destruct (N.eqb c 34); [right; right; now exists 34%N|].
  destruct (N.eqb c 92) eqn:E92; [right; right; now exists 92%N|].
  destruct (N.eqb c 10); [right; right; now exists 110%N|].
  destruct (N.eqb c 13); [right; right; now exists 114%N|].
  destruct (N.eqb c 9); [right; right; now exists 116%N|].
  destruct (N.eqb c 8); [right; right; now exists 98%N|].
  destruct (N.eqb c 12); [right; right; now exists 102%N|].
  destruct ((32 <=? c)%N && (c <=? 126)%N); [right; left; now exists c|].
  left; destruct (c <? 0x10000)%N eqn:Ebmp.
  - apply N.ltb_lt in Ebmp.
    destruct (u_escape Ebmp) as (g1 & g2 & g3 & g4 & -> & Hhex).
    exists g1, g2, g3, g4, c, []; now repeat split.
  - apply N.ltb_ge in Ebmp; unfold is_code_point in Hc; apply N.ltb_lt in Hc.
    cbv zeta; set (n := (c - 0x10000)%N).
    assert (Hn : (n < 1024 * 1024)%N) by (unfold n; lia).
    assert (H1 : N.land (N.shiftr n 10) 0x3FF = (n / 1024)%N).
    { change 0x3FF%N with (N.ones 10).
      rewrite N.land_ones, N.shiftr_div_pow2.
      change (2 ^ 10)%N with 1024%N.
      apply N.mod_small, N.Div0.div_lt_upper_bound; lia. }
    assert (Hq : (n / 1024 < 1024)%N)
      by (apply N.Div0.div_lt_upper_bound; lia).
    rewrite H1, (lor_high Hq).
    destruct (@u_escape (0xD800 + n / 1024)%N)
      as (g1 & g2 & g3 & g4 & -> & Hhex); [lia|].
    exists g1, g2, g3, g4, (0xD800 + n / 1024)%N; eexists.
    split; [reflexivity|]. split; [exact Hhex|].
    unfold is_low_surrogate; intros Hlow.
    apply andb_true_iff in Hlow as [Hlow _]; apply N.leb_le in Hlow; lia.
Qed.

(** Whatever the characters of a string, the decoder reads its encoding
    up to the closing quote. *)
Lemma scanstring_encode_any (n : nat) :
  forall s tail acc,
    List.length s <= n ->
    is_pystr s = true ->
    exists s',
      scanstring (flat_map escape_char s ++ dquote :: tail) acc
      = Some (s', tail).
Proof.
  induction n as [|n IH]; intros s tail acc Hn Hs.
  - destruct s; [|simpl in Hn; lia].
    eexists; apply scanstring_quote.
  - destruct s as [|c s]; [eexists; apply scanstring_quote|].
    simpl List.length in Hn.
    unfold is_pystr in Hs; cbn [forallb] in Hs.
    apply andb_true_iff in Hs as [Hc Hs]; fold (is_pystr s) in Hs.
    cbn [flat_map]; rewrite <- app_assoc.
    destruct (is_high_surrogate c) eqn:Ehigh.
    2: { rewrite scanstring_escape_not_high by assumption.
         apply IH; [lia | exact Hs]. }
    assert (Hesc : exists h1 h2 h3 h4,
               escape_char c = py "\u" ++ [h1; h2; h3; h4]
               /\ hex4 h1 h2 h3 h4 = Some c).
    { unfold is_high_surrogate in Ehigh.
      apply andb_true_iff in Ehigh as [L1 L2]; apply N.leb_le in L1, L2.
      unfold escape_char.
      repeat match goal with
             | |- context [N.eqb c ?k] =>
                 destruct (N.eqb c k) eqn:?;
                 [match goal with H : N.eqb c _ = true |- _ =>
                    apply N.eqb_eq in H; lia end|]
             end.
      replace ((32 <=? c)%N && (c <=? 126)%N) with false
        by (symmetry; apply andb_false_iff; right; apply N.leb_gt; lia).
      replace (c <? 0x10000)%N with true by (symmetry; apply N.ltb_lt; lia).
      destruct (@u_escape c) as (h1 & h2 & h3 & h4 & -> & Hhex); [lia|].
      now exists h1, h2, h3, h4. }
    destruct Hesc as (h1 & h2 & h3 & h4 & -> & Hhex).
    rewrite <- app_assoc, (scanstring_high _ _ _ _ _ acc Hhex Ehigh).
    assert (Hsame : exists s',
               scanstring (flat_map escape_char s ++ dquote :: tail) (c :: acc)
               = Some (s', tail)) by (apply IH; [lia | exact Hs]).
    destruct s as [|c2 s2].
    + cbn [flat_map app] in *.
      change (is_char "\" dquote) with false; cbn [andb].
      destruct tail as [|x [|g1 [|g2 [|g3 [|g4 r3]]]]]; exact Hsame.
    + unfold is_pystr in Hs; cbn [forallb] in Hs.
      apply andb_true_iff in Hs as [Hc2 Hs2]; fold (is_pystr s2) in Hs2.
      cbn [flat_map] in *; rewrite <- app_assoc in *.
      destruct (escape_char_head c2 Hc2)
        as [(g1 & g2 & g3 & g4 & u2 & more & E & Hg & Hlow)
           |[(b & E & Hb)|(x & E & Hx)]]; rewrite E in *.
      * cbn [app] in *.
        change (is_char "\" 92%N) with true; change (is_char "u" 117%N) with true.
        cbn [andb]; rewrite Hg.
        destruct (is_low_surrogate u2) eqn:El; [|exact Hsame].
        rewrite (Hlow eq_refl); cbn [app].
        apply IH; [simpl List.length in Hn; lia | exact Hs2].
      * cbn [app] in *.
        destruct (flat_map escape_char s2 ++ dquote :: tail)
          as [|x [|g1 [|g2 [|g3 [|g4 r3]]]]]; try exact Hsame.
        now rewrite Hb.
      * cbn [app] in *.
        destruct (flat_map escape_char s2 ++ dquote :: tail)
          as [|g1 [|g2 [|g3 [|g4 r3]]]]; try exact Hsame.
        now rewrite Hx, andb_false_r.
Qed.

Lemma scan_once_string_any (m fuel depth : nat) (s tail : str) :
  is_pystr s = true ->
  exists s',
    scan_once m (S fuel) depth (encode_basestring_ascii s ++ tail)
    = Scanned (JStr s') tail.
Proof.
  intros Hs; rewrite encode_app; cbn [scan_once].
  change (is_quote dquote) with true; cbv iota.
  destruct (@scanstring_encode_any (List.length s) s tail [] (le_n _) Hs)
    as [s' ->].
  now exists s'.
Qed.

(** One member whose value is any string. *)
Lemma scan_members_member_any (m fuel depth : nat) (k v : str) (c3 : char)
  (r4 : str) (acc : list (str * json)) :
  is_text k = true -> is_pystr v = true -> is_ws c3 = false ->
  exists v',
    scan_members m (S (S fuel)) depth (dumps_member (k, v) ++ c3 :: r4) acc
    = if is_char "}" c3 then Scanned (JObj (dict_set acc k (JStr v'))) r4
      else if is_char "," c3
           then scan_members m (S fuel) depth (skip_ws r4)
                  (dict_set acc k (JStr v'))
           else Malformed.
Proof.
  intros Hk Hv Hc3; rewrite dumps_member_app, scan_members_S.
  change (is_quote dquote) with true; cbv iota.
  rewrite scanstring_encode by assumption; cbn [rev app].
  cbn [skip_ws]; change (is_ws 58%N) with false; cbv iota.
  change (is_char ":" 58%N) with true; cbv iota.
  assert (Hskip : skip_ws (32%N :: encode_basestring_ascii v ++ c3 :: r4)
                  = encode_basestring_ascii v ++ c3 :: r4) by reflexivity.
  rewrite Hskip.
  destruct (scan_once_string_any m fuel depth v (c3 :: r4) Hv) as [v' ->].
  exists v'; cbn [skip_ws]; now rewrite Hc3.
Qed.

(** The members written by [json_dumps], whatever the values. *)
Lemma scan_members_dumps_any (d : list (str * str)) :
  d <> [] ->
  forallb (fun kv => is_text (fst kv) && is_pystr (snd kv)) d = true ->
  forall m fuel depth acc tail,
    List.length d < fuel ->
    exists values,
      List.length values = List.length d
      /\ scan_members m fuel depth
           (join (py ", ") (map dumps_member d) ++ py "}" ++ tail) acc
         = Scanned (JObj (dict_of_items (combine (map fst d) values) acc))
             tail.
Proof.
  induction d as [|[k v] d IH]; [congruence|];
    intros _ Ht m fuel depth acc tail Hf.
  cbn [forallb fst snd] in Ht.
  apply andb_true_iff in Ht as [Hkv Ht].
  apply andb_true_iff in Hkv as [Hk Hv].
  destruct fuel as [|[|fuel]]; simpl List.length in Hf; try lia.
  destruct d as [|kv2 d].
  - destruct (scan_members_member_any m fuel depth k v 125%N tail acc
                Hk Hv eq_refl) as [v' Hm].
    exists [v']; split; [reflexivity|].
    cbn [map join]; change (py "}" ++ tail) with (125%N :: tail).
    etransitivity; [exact Hm | reflexivity].
  - destruct (scan_members_member_any m fuel depth k v 44%N
                (32%N :: join (py ", ") (map dumps_member (kv2 :: d))
                 ++ py "}" ++ tail) acc Hk Hv eq_refl) as [v' Hm].
    destruct (dumps_members_head kv2 d (py "}" ++ tail)) as [rest E].
    destruct (IH ltac:(discriminate) Ht m (S fuel) depth
                (dict_set acc k (JStr v')) tail)
      as (values & Hlen & Hrec); [simpl List.length in *; lia|].
    exists (v' :: values); split; [simpl; now rewrite Hlen|].
    change (join (py ", ") (map dumps_member ((k, v) :: kv2 :: d)))
      with (dumps_member (k, v)
            ++ py ", " ++ join (py ", ") (map dumps_member (kv2 :: d))).
    rewrite <- !app_assoc.
    change (py ", " ++ join (py ", ") (map dumps_member (kv2 :: d))
            ++ py "}" ++ tail)
      with (44%N :: 32%N :: join (py ", ") (map dumps_member (kv2 :: d))
            ++ py "}" ++ tail).
    etransitivity; [exact Hm|].
    change (is_char "}" 44%N) with false; change (is_char "," 44%N) with true.
    cbv iota.
    rewrite E; change (skip_ws (32%N :: dquote :: rest)) with (dquote :: rest).
    rewrite <- E; exact Hrec.
Qed.

(** Decoding what [json_dumps] wrote always gives an object with the
    same keys, when the keys are text and the values are strings. *)
Lemma decode_json_dumps_any (d : list (str * str)) :
  forallb (fun kv => is_text (fst kv) && is_pystr (snd kv)) d = true ->
  exists values,
    List.length values = List.length d
    /\ decode (json_dumps d)
       = Scanned (JObj (dict_of_items (combine (map fst d) values) [])) [].
Proof.
  intros Ht; destruct d as [|kv d]; [now exists []|].
  unfold decode; rewrite fuel_for_S.
  set (depth := 2 * List.length (json_dumps (kv :: d)) + 1).
  unfold decode_with, json_dumps.
  destruct (dumps_members_head kv d (py "}")) as [rest E].
  set (text := py "{" ++ join (py ", ") (map dumps_member (kv :: d)) ++ py "}").
  assert (Htext : text = 123%N :: dquote :: rest)
    by (unfold text; now rewrite E).
  assert (Hscan : exists values,
             List.length values = List.length (kv :: d)
             /\ scan_once 0 (S (S (List.length (kv :: d)))) (S depth) text
                = Scanned (JObj (dict_of_items
                                   (combine (map fst (kv :: d)) values) []))
                    []).
  { rewrite Htext; cbn [scan_once].
    change (is_quote 123%N) with false; change (is_char "{" 123%N) with true.
    cbv iota; change (skip_ws (dquote :: rest)) with (dquote :: rest).
    cbv iota; change (is_char "}" dquote) with false; cbv iota.
    rewrite <- E.
    rewrite <- (app_nil_r (py "}")).
    apply scan_members_dumps_any; [discriminate | exact Ht | lia]. }
  destruct Hscan as (values & Hlen & Hscan); exists values; split; [exact Hlen|].
  assert (Hbom : startswith text [0xFEFF%N] = false)
    by (rewrite Htext; reflexivity).
  assert (Hws : skip_ws text = text) by (rewrite Htext; reflexivity).
  rewrite Hbom, Hws.
  rewrite (@scan_once_any_fuel 0 (S depth) (fuel_for text)
             (S (S (List.length (kv :: d))))).
  - now rewrite Hscan.
  - apply (proj1 (scan_has_fuel 0 (fuel_for text))); unfold fuel_for; lia.
  - rewrite Hscan; discriminate.
Qed.

Lemma text_is_pystr (s : str) : is_text s = true -> is_pystr s = true.
Proof.
  apply forallb_impl; intros c; unfold is_scalar, is_code_point; intros H.
  apply N.ltb_lt; apply orb_true_iff in H as [H|H].
  - apply N.ltb_lt in H; lia.
  - apply andb_true_iff in H as [_ H]; now apply N.ltb_lt in H.
Qed.

Lemma is_pystr_app (a b : str) : is_pystr (a ++ b) = is_pystr a && is_pystr b.
Proof. apply forallb_app. Qed.

Lemma is_pystr_join (sep : str) (xs : list str) :
  is_pystr sep = true -> forallb is_pystr xs = true ->
  is_pystr (join sep xs) = true.
Proof.
  intros Hsep; induction xs as [|x xs IH]; intros H; [reflexivity|].
  cbn [forallb] in H; apply andb_true_iff in H as [Hx Hxs].
  destruct xs as [|y xs]; [exact Hx|].
  change (join sep (x :: y :: xs)) with (x ++ sep ++ join sep (y :: xs)).
  now rewrite !is_pystr_app, Hx, Hsep, (IH Hxs).
Qed.

(** The bodies of the two kinds of response decode to objects. *)
Lemma error_body_is_json (status : Z) (message : str) :
  is_pystr message = true ->
  exists v,
    decode (body (error_response status message)) = Scanned v []
    /\ keys_of v = [py "error"].
Proof.
  intros Hm; unfold error_response; cbn [body].
  destruct (@decode_json_dumps_any [(py "error", message)])
    as (values & Hlen & ->); [cbn [forallb fst snd]; now rewrite Hm|].
  destruct values as [|v' [|? ?]]; try discriminate.
  eexists; split; reflexivity.
Qed.

Lemma success_body_is_json (url key : str) :
  is_pystr url = true -> is_pystr key = true ->
  exists v,
    decode (body (success_response url key)) = Scanned v []
    /\ keys_of v = [py "url"; py "key"].
Proof.
  intros Hu Hk; unfold success_response; cbn [body].
  destruct (@decode_json_dumps_any [(py "url", url); (py "key", key)])
    as (values & Hlen & ->); [cbn [forallb fst snd]; now rewrite Hu, Hk|].
  destruct values as [|a [|b [|? ?]]]; try discriminate.
  eexists; split; reflexivity.
Qed.

End AnyString.

(** X14.  The body of every response is a JSON document that decodes to
    an object, with the fields [url] and [key] when the status is 200 and
    the one field [error] otherwise; this for every event, also when the
    content type holds lone surrogates, as long as the strings involved
    are strings of Python and the set yields its four members. *)
Theorem every_body_is_a_json_object (i : Interpreter) (g : Globals)
  (w : World) (event : json) :
  (forall d ct,
     event_body i event = Return (JObj d) -> content_type_of d = JStr ct ->
     is_pystr ct = true) ->
  (forall ct url,
     str_in ct allowed_types = true ->
     generate_presigned_url w (s3_client g)
       (put_object_call g (derived_key w ct) ct) = Return url ->
     is_pystr url = true) ->
  Permutation (set_iter w allowed_types) allowed_types ->
  exists r v,
    fst (invoke i g w event) = Return r
    /\ decode (body r) = Scanned v []
    /\ keys_of v = (if (statusCode r =? 200)%Z
                    then [py "url"; py "key"] else [py "error"]).
Proof.
  intros Hct Hurl Hperm.
  destruct (request_cases i event)
    as [(e & H)|[(v & H & Hv)|[(d & H & Hs)|[(d & ct & H & Hc & Hp)
       |[(d & ct & H & Hc & Hp & Ha)|(d & ct & H & Hc & Ha)]]]]].
  - rewrite (invoke_no_body i g w event H).
    destruct (@error_body_is_json 500 internal_error_message eq_refl)
      as (v & Hd & Hk).
    now exists internal_error_response, v.
  - rewrite (invoke_not_dict i g w event H Hv).
    destruct (@error_body_is_json 500 internal_error_message eq_refl)
      as (v' & Hd & Hk).
    now exists internal_error_response, v'.
  - rewrite (invoke_not_str i g w event H Hs).
    destruct (@error_body_is_json 500 internal_error_message eq_refl)
      as (v & Hd & Hk).
    now exists internal_error_response, v.
  - rewrite (invoke_invalid i g w event H Hc Hp).
    destruct (@error_body_is_json 400 invalid_content_type_message eq_refl)
      as (v & Hd & Hk).
    now exists invalid_content_type_response, v.
  - rewrite (invoke_unsupported i g w event H Hc Hp Ha).
    destruct (@error_body_is_json 400
                (unsupported_message ct (set_iter w allowed_types)))
      as (v & Hd & Hk).
    + unfold unsupported_message.
      rewrite !is_pystr_app, (Hct d ct H Hc); cbn [andb].
      apply is_pystr_join; [reflexivity|].
      apply forallb_forall; intros t Ht.
      apply (Permutation_in _ Hperm) in Ht; simpl in Ht.
      destruct Ht as [<-|[<-|[<-|[<-|[]]]]]; reflexivity.
    + eexists _, v; split; [reflexivity | now split].
  - rewrite (invoke_valid i g w event H Hc Ha); cbv zeta.
    destruct (generate_presigned_url w (s3_client g)
                (put_object_call g (derived_key w ct) ct)) as [url|e] eqn:Es.
    + destruct (@success_body_is_json url (derived_key w ct))
        as (v & Hd & Hk).
      * now apply (Hurl ct).
      * apply text_is_pystr; unfold derived_key.
        destruct (random_suffix_shape (Uuid.uuid4_int (urandom w)))
          as [_ Hhex].
        apply object_key_text.
        -- exact (@forallb_impl _ is_lower_hex is_scalar _
                    lower_hex_is_scalar Hhex).
        -- apply str_in_In in Ha; simpl in Ha.
           destruct Ha as [<-|[<-|[<-|[<-|[]]]]]; reflexivity.
      * eexists _, v; split; [reflexivity | now split].
    + destruct (@error_body_is_json 500 internal_error_message eq_refl)
        as (v & Hd & Hk).
      now exists internal_error_response, v.
Qed.

(* ------------------------------------------------------------------ *)
(** ** The further properties at concrete requests *)

Lemma allowed_request_succeeds_witness :
  invoke demo_python demo_globals demo_world jpeg_event
  = (Return (success_response
               (py ("https://uploads-bucket.s3.eu-west-1.amazonaws.com/"
                    ++ "uploads/1700000000-012345.jpeg?X-Amz-Expires=120"))
               (derived_key demo_world (py "image/jpeg"))),
     [IoPresign (s3_client demo_globals)
        (put_object_call demo_globals
           (derived_key demo_world (py "image/jpeg")) (py "image/jpeg"))])
  /\ exists ext,
       In ext allowed_subtypes
       /\ py "image/jpeg" = py "image/" ++ ext
       /\ Regex.fullmatch (Regex.key_pattern ext)
            (derived_key demo_world (py "image/jpeg")) = true.
Proof.
  apply (@allowed_request_succeeds demo_python demo_globals demo_world
           jpeg_event [(py "contentType", JStr (py "image/jpeg"))]
           (py "image/jpeg")).
  - vm_compute; reflexivity.
  - reflexivity.
  - reflexivity.
  - simpl; lia.
  - vm_compute; reflexivity.
Defined.

Lemma no_object_body_is_internal_error_witness :
  exists e,
    invoke demo_python demo_globals demo_world array_body_event
    = (Return internal_error_response, [IoPrint error_prefix e])
    /\ (((forall entries, array_body_event <> JObj entries)
         /\ e = AttributeError array_body_event (py "get"))
        \/ (exists entries v,
              array_body_event = JObj entries
              /\ dict_get entries (py "body") = Some v
              /\ is_str v = false /\ e = TypeError v)
        \/ (exists entries doc,
              array_body_event = JObj entries
              /\ dict_get entries (py "body") = Some (JStr doc)
              /\ ((decode_in demo_python doc = Malformed
                   /\ e = raised_by_scanner demo_python doc
                            (JSONDecodeError doc))
                  \/ (decode_in demo_python doc = TooDeep
                      /\ e = RecursionError)
                  \/ (exists text,
                        decode_in demo_python doc = TooManyDigits text
                        /\ e = raised_by_scanner demo_python doc
                                 (ValueError text))
                  \/ (exists v,
                        decode_in demo_python doc = Scanned v []
                        /\ (forall d, v <> JObj d)
                        /\ e = AttributeError v (py "get"))))).
Proof.
  apply (@no_object_body_is_internal_error demo_python demo_globals demo_world
           array_body_event).
  intros d H; vm_compute in H; discriminate.
Defined.

Lemma response_depends_only_on_content_type_witness :
  lambda_handler demo_python demo_globals (event_with_body (py "{}")) JNull
    demo_world []
  = lambda_handler demo_python demo_globals empty_type_event
      (JStr (py "context")) demo_world [].
Proof.
  apply (@response_depends_only_on_content_type demo_python demo_globals
           demo_world (event_with_body (py "{}")) empty_type_event
           JNull (JStr (py "context")) [] []
           [(py "contentType", JStr []); (py "fileName", JStr (py "x"))]);
    vm_compute; reflexivity.
Defined.

Lemma valid_key_characters_witness :
  forallb is_key_char (derived_key demo_world (py "image/webp")) = true.
Proof.
  apply (@valid_key_characters demo_world (py "image/webp")); reflexivity.
Defined.

Lemma derived_key_determines_its_parts_witness :
  clock demo_world = clock failing_world
  /\ random_suffix_of (Uuid.uuid4_int (urandom demo_world))
     = random_suffix_of (Uuid.uuid4_int (urandom failing_world))
  /\ ext_of (py "image/png") = ext_of (py "text/png").
Proof.
  apply (@derived_key_determines_its_parts demo_world failing_world
           (py "image/png") (py "text/png")).
  vm_compute; reflexivity.
Defined.

Lemma suffixes_equal_iff_leading_bytes_equal_witness :
  random_suffix_of (Uuid.uuid4_int (urandom demo_world))
  = random_suffix_of (Uuid.uuid4_int (urandom second_world))
  <-> (urandom demo_world / 2 ^ 104 = urandom second_world / 2 ^ 104)%N.
Proof.
  apply (@suffixes_equal_iff_leading_bytes_equal demo_world second_world);
    reflexivity.
Defined.

Lemma module_init_fails_fast_witness :
  module_init demo_boto3_client int_of_decimal
    [(py "BUCKET_NAME", py "uploads-bucket")]
  = Raise (KeyError (py "REGION"))
  /\ module_init demo_boto3_client int_of_decimal
       [(py "REGION", py "eu west 1")]
     = Raise (BackendError (py "Provided region_name is not valid"))
  /\ module_init demo_boto3_client int_of_decimal
       ((py "SIGNED_URL_EXPIRE", py "two minutes") :: demo_environ)
     = Raise (ValueError (py "two minutes")).
Proof.
  split; [|split].
  - apply (proj1 (module_init_fails_fast demo_boto3_client int_of_decimal
                    [(py "BUCKET_NAME", py "uploads-bucket")])).
    reflexivity.
  - apply (proj1 (proj2 (module_init_fails_fast demo_boto3_client
                           int_of_decimal [(py "REGION", py "eu west 1")]))
             (py "eu west 1")); reflexivity.
  - apply (proj1 (proj2 (proj2 (proj2
             (module_init_fails_fast demo_boto3_client int_of_decimal
                ((py "SIGNED_URL_EXPIRE", py "two minutes") :: demo_environ)))))
             (py "eu-west-1") {| region_name := py "eu-west-1" |}
             (py "uploads-bucket") (py "two minutes")); reflexivity.
Defined.

Lemma json_loads_reads_json_dumps_witness :
  json_loads demo_python
    (JStr (json_dumps [(py "url", py "https://example.com/a?b=c");
                       (py "key", py "uploads/1-abcdef.png")]))
  = Return (JObj [(py "url", JStr (py "https://example.com/a?b=c"));
                  (py "key", JStr (py "uploads/1-abcdef.png"))]).
Proof.
  apply (@json_loads_reads_json_dumps demo_python
           [(py "url", py "https://example.com/a?b=c");
            (py "key", py "uploads/1-abcdef.png")]).
  - repeat constructor; simpl; intuition discriminate.
  - reflexivity.
Defined.

Lemma every_body_is_a_json_object_witness :
  exists r v,
    fst (invoke demo_python demo_globals demo_world surrogate_event) = Return r
    /\ decode (body r) = Scanned v []
    /\ keys_of v = (if (statusCode r =? 200)%Z
                    then [py "url"; py "key"] else [py "error"]).
Proof.
  apply (@every_body_is_a_json_object demo_python demo_globals demo_world
           surrogate_event).
  - intros d ct Hb Hc; vm_compute in Hb; injection Hb as <-.
    vm_compute in Hc; injection Hc as <-; reflexivity.
  - intros ct url Ha Hs; apply str_in_In in Ha; simpl in Ha.
    destruct Ha as [<-|[<-|[<-|[<-|[]]]]];
      vm_compute in Hs; injection Hs as <-; reflexivity.
  - simpl; apply Permutation_sym, Permutation_rev.
Defined.

(** The content type of that request ends with a lone surrogate; the
    answer is the rejection of an unsupported type. *)
Example surrogate_event_is_rejected :
  event_body demo_python surrogate_event
  = Return (JObj [(py "contentType", JStr (py "image/" ++ [0xD83D%N]))])
  /\ fst (invoke demo_python demo_globals demo_world surrogate_event)
     = Return (error_response 400
                 (unsupported_message (py "image/" ++ [0xD83D%N])
                    (rev allowed_types))).
Proof. split; vm_compute; reflexivity. Qed.

(* ------------------------------------------------------------------ *)
(** ** Rejections and the deployment *)

Lemma invoke_valid_calls (i : Interpreter) (g : Globals) (w : World)
  (event : json) (d : list (str * json)) (ct : str) :
  event_body i event = Return (JObj d) ->
  content_type_of d = JStr ct ->
  str_in ct allowed_types = true ->
  presign_calls (snd (invoke i g w event))
  = [(s3_client g, put_object_call g (derived_key w ct) ct)].
Proof.
  intros H Hc Ha; rewrite (invoke_valid i g w event H Hc Ha); cbv zeta.
  destruct (generate_presigned_url w (s3_client g)
              (put_object_call g (derived_key w ct) ct)); reflexivity.
Qed.

(** X15.  An invocation that asks for no signature answers the same, and
    prints the same, under every configuration and in every world that
    iterates the set of allowed types in the same order: a rejection or
    an internal error before signing tells nothing of the bucket, the
    region, the expiry, the clock, the random bytes or the storage
    client. *)
Theorem unsigned_answers_do_not_depend_on_deployment (i : Interpreter)
  (g1 g2 : Globals) (w1 w2 : World) (event : json) :
  set_iter w1 allowed_types = set_iter w2 allowed_types ->
  presign_calls (snd (invoke i g1 w1 event)) = [] ->
  invoke i g1 w1 event = invoke i g2 w2 event.
Proof.
  intros Hiter Hnone.
  destruct (request_cases i event)
    as [(e & H)|[(v & H & Hv)|[(d & H & Hs)|[(d & ct & H & Hc & Hp)
       |[(d & ct & H & Hc & Hp & Ha)|(d & ct & H & Hc & Ha)]]]]].
  - now rewrite !(invoke_no_body i _ _ event H).
  - now rewrite !(invoke_not_dict i _ _ event H Hv).
  - now rewrite !(invoke_not_str i _ _ event H Hs).
  - now rewrite !(invoke_invalid i _ _ event H Hc Hp).
  - now rewrite !(invoke_unsupported i _ _ event H Hc Hp Ha), Hiter.
  - rewrite (invoke_valid_calls i g1 w1 event H Hc Ha) in Hnone; discriminate.
Qed.

Lemma unsigned_answers_do_not_depend_on_deployment_witness :
  invoke demo_python demo_globals demo_world bmp_event
  = invoke demo_python
      {| s3_client := {| region_name := py "us-east-1" |};
         BUCKET_NAME := py "another-bucket";
         EXPIRE_SECONDS := 5 |}
      failing_world bmp_event.
Proof.
  apply unsigned_answers_do_not_depend_on_deployment; reflexivity.
Defined.
